(** * moon-ci-retrospect: the report-to-presentation pipeline of [src/index.ts]

    A shallow embedding of the action's single source file.  JavaScript
    strings are sequences of UTF-16 code units, the file system and the
    process environment are an explicit [World], and the asynchronous,
    effectful routines are written in a small trace-and-error monad: every
    file-system access, console line and summary call is an [Event] of the
    trace, and a rejected promise is an [Error]. *)

From Stdlib Require Import NArith ZArith Ascii String.
From stdpp Require Import base option list gmap.

(** ** JavaScript strings *)

(** A string value is its sequence of UTF-16 code units. *)
Abbreviation jsstring := (list N).

(** An ASCII literal of the source, unit by unit. *)
Fixpoint lit (s : string) : jsstring :=
  match s with
  | EmptyString => []
  | String c s' => N_of_ascii c :: lit s'
  end.
Arguments lit s%_string.

(** The code units of one code point: itself inside the basic plane, a
    surrogate pair above it. *)
Definition utf16 (cp : N) : jsstring :=
  if (cp <? 65536)%N then [cp]
  else
    let v := (cp - 65536)%N in
    [(55296 + N.shiftr v 10)%N; (56320 + N.land v 1023)%N].

(** Strict equality [===] of two strings. *)
Definition str_eqb (a b : jsstring) : bool := bool_decide (a = b).

(** [String.prototype.split] with a separator of one code unit: the result
    always has at least one element. *)
Fixpoint split (sep : N) (s : jsstring) : list jsstring :=
  match s with
  | [] => [[]]
  | c :: s' =>
      if (c =? sep)%N then [] :: split sep s'
      else
        match split sep s' with
        | [] => [[c]]
        | h :: t => (c :: h) :: t
        end
  end.

(** [s.replace(/x/g, y)] for single code units [x] and [y]. *)
Definition replaceAll (x y : N) (s : jsstring) : jsstring :=
  (λ c, if (c =? x)%N then y else c) <$> s.

(** The code units [String.prototype.trim] strips: ECMAScript's WhiteSpace
    and LineTerminator productions, all of them in the basic plane. *)
Definition isWhiteSpace (c : N) : bool :=
  ((9 <=? c) && (c <=? 13) || (c =? 32) || (c =? 160) || (c =? 5760)
   || (8192 <=? c) && (c <=? 8202) || (c =? 8232) || (c =? 8233)
   || (c =? 8239) || (c =? 8287) || (c =? 12288) || (c =? 65279))%N.

Fixpoint trimStart (s : jsstring) : jsstring :=
  match s with
  | [] => []
  | c :: s' => if isWhiteSpace c then trimStart s' else s
  end.

Definition trimEnd (s : jsstring) : jsstring := reverse (trimStart (reverse s)).

Definition trim (s : jsstring) : jsstring := trimEnd (trimStart s).

(** [Array.prototype.join]. *)
Fixpoint join (sep : jsstring) (xs : list jsstring) : jsstring :=
  match xs with
  | [] => []
  | [x] => x
  | x :: rest => x ++ sep ++ join sep rest
  end.

(** ** Terminal colours *)

Definition esc : jsstring := [27%N].

Definition bgGreen (text : jsstring) : jsstring :=
  esc ++ lit "[42m" ++ text ++ esc ++ lit "[49m".

Definition bgRed (text : jsstring) : jsstring :=
  esc ++ lit "[41m" ++ text ++ esc ++ lit "[49m".

Definition bgBlue (text : jsstring) : jsstring :=
  esc ++ lit "[44m" ++ text ++ esc ++ lit "[49m".

Definition bgDarkGray (text : jsstring) : jsstring :=
  esc ++ lit "[48;5;236m" ++ text ++ esc ++ lit "[49m".

Definition bold (text : jsstring) : jsstring :=
  esc ++ lit "[1m" ++ text ++ esc ++ lit "[22m".

Definition green (text : jsstring) : jsstring :=
  esc ++ lit "[32m" ++ text ++ esc ++ lit "[39m".

Definition red (text : jsstring) : jsstring :=
  esc ++ lit "[31m" ++ text ++ esc ++ lit "[39m".

Definition blue (text : jsstring) : jsstring :=
  esc ++ lit "[34m" ++ text ++ esc ++ lit "[39m".

Definition stdBadges_out : jsstring :=
  bgDarkGray (utf16 12288 ++ green (utf16 9210) ++ lit " STDOUT" ++ utf16 12288).

Definition stdBadges_err : jsstring :=
  bgDarkGray (utf16 12288 ++ red (utf16 9210) ++ lit " STDERR" ++ utf16 12288).

(** ** Targets *)

Record TargetIdentity := { project : jsstring; task : jsstring }.

(** [parts[i] ?? "unknown"]: only an index past the end of [parts] yields
    [undefined]; an empty string is a value of its own. *)
Definition parseTarget (target : jsstring) : TargetIdentity :=
  let parts := split 58 target in
  {| project := default (lit "unknown") (parts !! 0%nat);
     task := default (lit "unknown") (parts !! 1%nat) |}.

Definition sanitizeProjectName (p : jsstring) : jsstring := replaceAll 47 45 p.

(** ** Status classification *)

Definition emoji_passed : jsstring := utf16 9989.
Definition emoji_failed : jsstring := utf16 10060.
Definition emoji_skipped : jsstring := utf16 9197 ++ utf16 65039.
Definition emoji_cached : jsstring := utf16 128190.
Definition emoji_running : jsstring := utf16 127939.
Definition emoji_unknown : jsstring := utf16 10067.

(** The [switch] of [getStatusEmoji], case by case with strict equality. *)
Definition getStatusEmoji (status : jsstring) : jsstring :=
  if str_eqb status (lit "passed") then emoji_passed
  else if str_eqb status (lit "failed") then emoji_failed
  else if str_eqb status (lit "timed-out") then emoji_failed
  else if str_eqb status (lit "aborted") then emoji_failed
  else if str_eqb status (lit "invalid") then emoji_failed
  else if str_eqb status (lit "failed-and-abort") then emoji_failed
  else if str_eqb status (lit "skipped") then emoji_skipped
  else if str_eqb status (lit "cached") then emoji_cached
  else if str_eqb status (lit "cached-from-remote") then emoji_cached
  else if str_eqb status (lit "running") then emoji_running
  else emoji_unknown.

(** What reading a property of an object literal can give: a string of the
    literal, a member inherited from [Object.prototype], or [undefined]. *)
Inductive jsval :=
  | VString (s : jsstring)
  | VInherited (key : jsstring)
  | VUndefined.

(** The own properties of the [statusBadges] literal. *)
Definition statusBadges : gmap (list N) (list N) :=
  list_to_map
    [ (lit "running", bgGreen (lit " RUNNING "));
      (lit "passed", bgGreen (lit " PASS "));
      (lit "failed", bgRed (lit " FAIL "));
      (lit "timed-out", bgRed (lit " TIMED OUT "));
      (lit "aborted", bgRed (lit " ABORTED "));
      (lit "invalid", bgRed (lit " INVALID "));
      (lit "failed-and-abort", bgRed (lit " FAILED AND ABORT "));
      (lit "skipped", bgBlue (lit " SKIP "));
      (lit "cached", bgBlue (lit " CACHED "));
      (lit "cached-from-remote", bgBlue (lit " REMOTE CACHED ")) ].

(** The property names every object literal inherits. *)
Definition objectPrototypeKeys : list jsstring :=
  [ lit "constructor"; lit "__defineGetter__"; lit "__defineSetter__";
    lit "hasOwnProperty"; lit "__lookupGetter__"; lit "__lookupSetter__";
    lit "isPrototypeOf"; lit "propertyIsEnumerable"; lit "toString";
    lit "valueOf"; lit "__proto__"; lit "toLocaleString" ].

(** [statusBadges[status]]: own properties first, then the prototype. *)
Definition statusBadge (status : jsstring) : jsval :=
  match statusBadges !! status with
  | Some s => VString s
  | None =>
      if bool_decide (status ∈ objectPrototypeKeys) then VInherited status
      else VUndefined
  end.

(** The closed [ActionStatus] enumeration of the orchestrator's types. *)
Definition actionStatuses : list jsstring :=
  [ lit "running"; lit "passed"; lit "failed"; lit "timed-out";
    lit "aborted"; lit "invalid"; lit "failed-and-abort"; lit "skipped";
    lit "cached"; lit "cached-from-remote" ].

(** ** The run report *)

(** The report types ([Action], [RunReport], [OperationMetaTaskExecution])
    are imported from the orchestrator's type package; the model keeps the
    fields the source reads.  A node is a tagged union on [node.action]
    whose "run-task" variant carries [node.params.target]; an operation's
    metadata is a tagged union on [meta.type] whose "task-execution"
    variant carries the optional [meta.command]. *)
Inductive ActionNode :=
  | RunTask (target : jsstring)
  | OtherNode (action : jsstring).

Inductive OperationMeta :=
  | TaskExecution (command : option jsstring)
  | OtherMeta (type : jsstring).

Record Operation := { meta : OperationMeta }.

Record Action := {
  node : ActionNode;
  status : jsstring;
  operations : list Operation
}.

Record RunReport := { actions : list Action }.

(** The first task-execution operation decides, also when it has no
    command. *)
Fixpoint commandOf_ops (ops : list Operation) : option jsstring :=
  match ops with
  | [] => None
  | operation :: rest =>
      match meta operation with
      | TaskExecution command => command
      | OtherMeta _ => commandOf_ops rest
      end
  end.

Definition commandOf (action : Action) : option jsstring :=
  commandOf_ops (operations action).

(** The records [main] pushes onto [taskResults]. *)
Record TaskResult := {
  target : jsstring;
  tr_status : jsstring;
  command : option jsstring;
  hasStdout : bool;
  hasStderr : bool;
  stdout : option jsstring;
  stderr : option jsstring
}.

(** ** The world the action runs in *)

(** What [stat] accepts: a regular file with its decoded text, or anything
    else that exists but that [readFile] rejects (a directory, a file
    without read permission). *)
Inductive FsNode :=
  | RegularFile (content : jsstring)
  | Unreadable.

Record World := {
  (** [process.cwd()] *)
  cwd : jsstring;
  (** [process.env["GITHUB_ACTIONS"]] *)
  env_GITHUB_ACTIONS : option jsstring;
  (** [path.join] of two segments *)
  path_join : jsstring -> jsstring -> jsstring;
  (** the files on disk *)
  fs : gmap (list N) FsNode;
  (** the JSON reader behind [parseJson]; [None] when the text is malformed *)
  decodeReport : jsstring -> option RunReport;
  (** whether the host platform accepts [summary.write()] *)
  summaryWritable : bool
}.

Inductive Error :=
  | ReadError (path : jsstring)
  | ParseError (path : jsstring)
  | SummaryWriteError.

Record Cell := { data : jsstring; header : bool }.

(** Everything the action does to the outside, in the order it does it. *)
Inductive Event :=
  | FsStat (path : jsstring)
  | FsReadFile (path : jsstring)
  | FsParseJson (path : jsstring)
  | CoreDebug (message : jsstring)
  | CoreWarning (message : jsstring)
  (** [core.startGroup(`${badge} ${name}`)] *)
  | CoreStartGroup (badge : jsval) (name : jsstring)
  | CoreEndGroup
  | ConsoleLog (line : jsstring)
  | ConsoleError (error : Error)
  | SummaryAddHeading (text : jsstring) (level : option N)
  | SummaryAddRaw (text : jsstring)
  | SummaryAddTable (rows : list (list Cell))
  | SummaryAddBreak
  (** the code argument may be [undefined] *)
  | SummaryAddCodeBlock (code : option jsstring) (lang : jsstring)
  | SummaryWrite
  | ProcessExit (code : Z).

(** ** The trace-and-error monad *)

Definition M (A : Type) : Type := list Event * (Error + A).

Definition ret {A} (a : A) : M A := ([], inr a).

Definition raise {A} (e : Error) : M A := ([], inl e).

Definition emit (ev : Event) : M unit := ([ev], inr tt).

Definition bind {A B} (m : M A) (f : A -> M B) : M B :=
  match m with
  | (t, inl e) => (t, inl e)
  | (t, inr a) => let '(t', r) := f a in (t ++ t', r)
  end.

Declare Scope m_scope.
Delimit Scope m_scope with M.
Notation "x ← y ; z" := (bind y (λ x, z))
  (at level 20, y at level 100, z at level 200, only parsing) : m_scope.
Notation "x ;; z" := (bind x (λ _, z))
  (at level 100, z at level 200, only parsing, right associativity) : m_scope.
Local Open Scope m_scope.

Definition trace {A} (m : M A) : list Event := m.1.
Definition result {A} (m : M A) : Error + A := m.2.

(** ** File access *)

Definition fileExists (w : World) (path : jsstring) : M bool :=
  emit (FsStat path);;
  ret (bool_decide (is_Some (fs w !! path))).

Definition readFile (w : World) (path : jsstring) : M jsstring :=
  emit (FsReadFile path);;
  match fs w !! path with
  | Some (RegularFile content) => ret content
  | _ => raise (ReadError path)
  end.

Definition parseJson (w : World) (path : jsstring) : M RunReport :=
  emit (FsParseJson path);;
  match fs w !! path with
  | Some (RegularFile content) =>
      match decodeReport w content with
      | Some report => ret report
      | None => raise (ParseError path)
      end
  | _ => raise (ReadError path)
  end.

(** ** Report locator *)

Definition reportFileNames : list jsstring :=
  [lit "ciReport.json"; lit "runReport.json"].

Definition reportPath (w : World) (workspaceRoot fileName : jsstring) : jsstring :=
  path_join w workspaceRoot (path_join w (lit ".moon/cache") fileName).

Fixpoint loadReport_from (w : World) (workspaceRoot : jsstring)
    (fileNames : list jsstring) : M (option RunReport) :=
  match fileNames with
  | [] => ret None
  | fileName :: rest =>
      let localPath := path_join w (lit ".moon/cache") fileName in
      let reportPath := path_join w workspaceRoot localPath in
      emit (CoreDebug (lit "Finding run report at " ++ localPath));;
      found ← fileExists w reportPath;
      if found then
        emit (CoreDebug (lit "Found!"));;
        report ← parseJson w reportPath;
        ret (Some report)
      else loadReport_from w workspaceRoot rest
  end.

Definition loadReport (w : World) (workspaceRoot : jsstring) : M (option RunReport) :=
  loadReport_from w workspaceRoot reportFileNames.

(** ** Task log resolver *)

Definition statusDir (workspaceRoot : jsstring) (id : TargetIdentity) : jsstring :=
  workspaceRoot ++ lit "/.moon/cache/states/" ++ sanitizeProjectName (project id)
    ++ lit "/" ++ task id.

Definition readLog (w : World) (path : jsstring) : M jsstring :=
  found ← fileExists w path;
  if found then readFile w path else ret [].

Definition readStatus (w : World) (workspaceRoot : jsstring) (id : TargetIdentity)
    : M (jsstring * jsstring) :=
  let stdoutPath := statusDir workspaceRoot id ++ lit "/stdout.log" in
  let stderrPath := statusDir workspaceRoot id ++ lit "/stderr.log" in
  out ← readLog w stdoutPath;
  err ← readLog w stderrPath;
  ret (out, err).

(** ** Result normalizer and console renderer *)

Definition when (b : bool) (m : M unit) : M unit := if b then m else ret tt.

(** The record pushed for one task-execution action, from the logs read. *)
Definition taskResultOf (action : Action) (tgt out err : jsstring) : TaskResult :=
  let id := parseTarget tgt in
  let hasStdout := negb (str_eqb (trim out) []) in
  let hasStderr := negb (str_eqb (trim err) []) in
  {| target := project id ++ lit ":" ++ task id;
     tr_status := status action;
     command := commandOf action;
     hasStdout := hasStdout;
     hasStderr := hasStderr;
     stdout := if hasStdout then Some out else None;
     stderr := if hasStderr then Some err else None |}.

(** The console group of one record. *)
Definition renderGroup (action : Action) (r : TaskResult) (out err : jsstring) : M unit :=
  emit (CoreStartGroup (statusBadge (status action)) (bold (target r)));;
  match command r with
  | Some c => emit (ConsoleLog (blue (lit "$ " ++ c)))
  | None => ret tt
  end;;
  when (hasStdout r) (emit (ConsoleLog stdBadges_out);; emit (ConsoleLog out));;
  when (hasStderr r) (emit (ConsoleLog stdBadges_err);; emit (ConsoleLog err));;
  emit CoreEndGroup.

(** The [for] loop of [main]; [taskResults] is the array pushed onto. *)
Fixpoint forActions (w : World) (root : jsstring) (acts : list Action)
    (taskResults : list TaskResult) : M (list TaskResult) :=
  match acts with
  | [] => ret taskResults
  | action :: rest =>
      match node action with
      | OtherNode _ => forActions w root rest taskResults
      | RunTask tgt =>
          logs ← readStatus w root (parseTarget tgt);
          let r := taskResultOf action tgt logs.1 logs.2 in
          renderGroup action r logs.1 logs.2;;
          forActions w root rest (taskResults ++ [r])
      end
  end.

(** ** Summary renderer *)

Definition emoji_outbox : jsstring := utf16 128228.
Definition emoji_inbox : jsstring := utf16 128229.

(** [s || "-"] on a string. *)
Definition orDash (s : jsstring) : jsstring :=
  match s with [] => lit "-" | _ => s end.

Definition tableRow (r : TaskResult) : list Cell :=
  let statusEmoji := getStatusEmoji (tr_status r) in
  let outputs :=
    (if hasStdout r then [emoji_outbox ++ lit " stdout"] else [])
    ++ (if hasStderr r then [emoji_inbox ++ lit " stderr"] else []) in
  [ {| data := target r; header := false |};
    {| data := statusEmoji ++ lit " " ++ tr_status r; header := false |};
    {| data := orDash (default [] (command r)); header := false |};
    {| data := orDash (join (lit ", ") outputs); header := false |} ].

Definition tableHeader : list Cell :=
  [ {| data := lit "Task"; header := true |};
    {| data := lit "Status"; header := true |};
    {| data := lit "Command"; header := true |};
    {| data := lit "Outputs"; header := true |} ].

(** [if (result.command)]: neither [undefined] nor the empty string. *)
Definition truthy (c : option jsstring) : bool :=
  match c with
  | Some (_ :: _) => true
  | _ => false
  end.

Definition addDetail (r : TaskResult) : M unit :=
  emit (SummaryAddHeading (lit "Task: " ++ target r) (Some 3%N));;
  when (truthy (command r)) (emit (SummaryAddCodeBlock (command r) (lit "bash")));;
  when (hasStdout r)
    (emit (SummaryAddHeading (lit "STDOUT") (Some 4%N));;
     emit (SummaryAddCodeBlock (stdout r) (lit "text")));;
  when (hasStderr r)
    (emit (SummaryAddHeading (lit "STDERR") (Some 4%N));;
     emit (SummaryAddCodeBlock (stderr r) (lit "text")));;
  emit SummaryAddBreak.

Fixpoint addDetails (rs : list TaskResult) : M unit :=
  match rs with
  | [] => ret tt
  | r :: rest => addDetail r;; addDetails rest
  end.

Definition summaryWrite (w : World) : M unit :=
  emit SummaryWrite;;
  if summaryWritable w then ret tt else raise SummaryWriteError.

Definition buildSummary (w : World) (taskResults : list TaskResult) : M unit :=
  emit (SummaryAddTable (tableHeader :: (tableRow <$> taskResults)));;
  emit SummaryAddBreak;;
  addDetails taskResults;;
  summaryWrite w.

(** ** The main routine and the top level *)

Definition noReportWarning : jsstring :=
  lit "Run report does not exist, has `moon ci` or `moon run` ran?".

Definition isGitHubActions (w : World) : bool :=
  bool_decide (env_GITHUB_ACTIONS w = Some (lit "true")).

Definition initSummary : M unit :=
  emit (SummaryAddHeading (lit "Moon CI Retrospect Results") None);;
  emit (SummaryAddRaw
    (lit "This report shows the results of Moon CI task executions." ++ [10%N])).

Definition main (w : World) : M unit :=
  let root := cwd w in
  report ← loadReport w root;
  match report with
  | None => emit (CoreWarning noReportWarning)
  | Some report =>
      (* [summary] is the summary object exactly when the flag is set *)
      let summary := isGitHubActions w in
      when (isGitHubActions w) initSummary;;
      taskResults ← forActions w root (actions report) [];
      when (isGitHubActions w && summary && bool_decide (0 < length taskResults))
        (buildSummary w taskResults)
  end.

(** The [try]/[catch] around [main]. *)
Definition program (w : World) : list Event :=
  match main w with
  | (t, inr _) => t
  | (t, inl error) => t ++ [ConsoleError error; ProcessExit 0]
  end.

(** The status the process ends with: the argument of the first
    [process.exit], and 0 when the event loop simply drains, since nothing
    here sets [process.exitCode]. *)
Fixpoint exitCode (t : list Event) : Z :=
  match t with
  | [] => 0%Z
  | ProcessExit code :: _ => code
  | _ :: rest => exitCode rest
  end.

(** ** Observing a trace *)

(** The events of each component, by kind. *)
Definition isLocatorEvent (ev : Event) : bool :=
  match ev with
  | FsStat _ | FsParseJson _ | CoreDebug _ => true
  | _ => false
  end.

Definition isLoopEvent (ev : Event) : bool :=
  match ev with
  | FsStat _ | FsReadFile _ | CoreStartGroup _ _ | CoreEndGroup | ConsoleLog _ => true
  | _ => false
  end.

Definition isLogAccess (ev : Event) : bool :=
  match ev with
  | FsStat _ | FsReadFile _ => true
  | _ => false
  end.

Definition isConsoleEvent (ev : Event) : bool :=
  match ev with
  | CoreStartGroup _ _ | CoreEndGroup | ConsoleLog _ => true
  | _ => false
  end.

Definition isSummaryEvent (ev : Event) : bool :=
  match ev with
  | SummaryAddHeading _ _ | SummaryAddRaw _ | SummaryAddTable _ | SummaryAddBreak
  | SummaryAddCodeBlock _ _ | SummaryWrite => true
  | _ => false
  end.

Definition isSummaryWrite (ev : Event) : bool :=
  match ev with SummaryWrite => true | _ => false end.

Definition isProcessExit (ev : Event) : bool :=
  match ev with ProcessExit _ => true | _ => false end.

(** Whether an event is a file-system access to [path]. *)
Definition touches (path : jsstring) (ev : Event) : bool :=
  match ev with
  | FsStat p | FsReadFile p | FsParseJson p => str_eqb p path
  | _ => false
  end.

(** How many times the summary was published. *)
Definition summaryWrites (t : list Event) : nat :=
  length (List.filter isSummaryWrite t).

(** The names of the console groups opened, in the order they were opened. *)
Definition groupName (ev : Event) : option jsstring :=
  match ev with CoreStartGroup _ name => Some name | _ => None end.

Definition groupNames (t : list Event) : list jsstring := omap groupName t.

(** The tables added to the summary, and the texts of its level-3 headings. *)
Definition tableOf (ev : Event) : option (list (list Cell)) :=
  match ev with SummaryAddTable rows => Some rows | _ => None end.

Definition summaryTables (t : list Event) : list (list (list Cell)) := omap tableOf t.

Definition detailHeading (ev : Event) : option jsstring :=
  match ev with
  | SummaryAddHeading text level =>
      if bool_decide (level = Some 3%N) then Some text else None
  | _ => None
  end.

Definition detailHeadings (t : list Event) : list jsstring := omap detailHeading t.

(** Everything that prints a line: the debug lines and the warning of the
    toolkit, the group commands, [console.log] and [console.error].  File
    accesses print nothing, summary calls fill a buffer that [write] sends
    to a file, and [process.exit] is silent. *)
Definition isPrinted (ev : Event) : bool :=
  match ev with
  | CoreDebug _ | CoreWarning _ | CoreStartGroup _ _ | CoreEndGroup
  | ConsoleLog _ | ConsoleError _ => true
  | _ => false
  end.

(** The line [console.error] prints for the outcome of [main], if any. *)
Definition errorLine (r : Error + unit) : list Event :=
  match r with
  | inl e => [ConsoleError e]
  | inr _ => []
  end.

(** Console groups are opened and closed one at a time: [open] tells whether
    a group is open before the trace, the result whether one is open after
    it.  The result is [None] when a group is opened inside another or
    closed without being open, when [console.log] prints outside of every
    group, or when a debug line, a warning or [console.error] prints
    inside a group.  Events that print nothing are allowed anywhere. *)
Fixpoint grouping (open : bool) (t : list Event) : option bool :=
  match t with
  | [] => Some open
  | CoreStartGroup _ _ :: rest => if open then None else grouping true rest
  | CoreEndGroup :: rest => if open then grouping false rest else None
  | ConsoleLog _ :: rest => if open then grouping open rest else None
  | CoreDebug _ :: rest | CoreWarning _ :: rest | ConsoleError _ :: rest =>
      if open then None else grouping open rest
  | _ :: rest => grouping open rest
  end.

(** A computation that only emits events of one kind. *)
Definition emitsOnly {A} (P : Event → bool) (m : M A) : Prop :=
  Forall (λ ev, P ev = true) (trace m).

(** The target of a task-execution action; nothing for any other action. *)
Definition runTaskTarget (action : Action) : option jsstring :=
  match node action with
  | RunTask tgt => Some tgt
  | OtherNode _ => None
  end.

Definition isRunTask (action : Action) : bool :=
  match node action with
  | RunTask _ => true
  | OtherNode _ => false
  end.

(** [r] is the record the loop builds for [action]: the action runs a task,
    its two logs were read without error, and [r] is made from them. *)
Definition resultOfAction (w : World) (root : jsstring) (action : Action)
    (r : TaskResult) : Prop :=
  ∃ tgt out err,
    node action = RunTask tgt
    ∧ result (readStatus w root (parseTarget tgt)) = inr (out, err)
    ∧ r = taskResultOf action tgt out err.

(** [`${project}:${task}`] for the parts a target parses to. *)
Definition displayTarget (tgt : jsstring) : jsstring :=
  project (parseTarget tgt) ++ lit ":" ++ task (parseTarget tgt).

(** ** A sample workspace *)

Definition dquote : jsstring := [34%N].

Definition quoted (s : jsstring) : jsstring := dquote ++ s ++ dquote.

Definition sampleSync : Action :=
  {| node := OtherNode (lit "sync-workspace");
     status := lit "passed";
     operations := [] |}.

Definition sampleTest : Action :=
  {| node := RunTask (lit "libs/ui:test");
     status := lit "passed";
     operations :=
       [ {| meta := OtherMeta (lit "hash-generation") |};
         {| meta := TaskExecution (Some (lit "vitest run")) |} ] |}.

Definition sampleApp : Action :=
  {| node := RunTask (lit "app");
     status := lit "exploded";
     operations := [ {| meta := TaskExecution None |} ] |}.

Definition sampleReport : RunReport :=
  {| actions := [sampleSync; sampleTest; sampleApp] |}.

(** The records expected for the sample report in the sample workspace. *)
Definition sampleResults : list TaskResult :=
  [ {| target := lit "libs/ui:test";
       tr_status := lit "passed";
       command := Some (lit "vitest run");
       hasStdout := true;
       hasStderr := false;
       stdout := Some (lit "  12 passed " ++ [10%N]);
       stderr := None |};
    {| target := lit "app:unknown";
       tr_status := lit "exploded";
       command := None;
       hasStdout := false;
       hasStderr := false;
       stdout := None;
       stderr := None |} ].

Definition sampleReportText : jsstring :=
  lit "{" ++ quoted (lit "actions") ++ lit ":[...]}".

Definition sampleFiles : gmap (list N) FsNode :=
  list_to_map
    [ (lit "/work/.moon/cache/ciReport.json", RegularFile sampleReportText);
      (lit "/work/.moon/cache/runReport.json", RegularFile (lit "{}"));
      (lit "/work/.moon/cache/states/libs-ui/test/stdout.log",
       RegularFile (lit "  12 passed " ++ [10%N])) ].

(** A workspace under [/work] holding both report files and the stdout log
    of one of its two tasks, run on the CI platform. *)
Definition sampleWorld : World :=
  {| cwd := lit "/work";
     env_GITHUB_ACTIONS := Some (lit "true");
     path_join := λ a b, a ++ lit "/" ++ b;
     fs := sampleFiles;
     decodeReport := λ text,
       if str_eqb text sampleReportText then Some sampleReport else None;
     summaryWritable := true |}.

(** The same workspace with a report file that is not a report. *)
Definition brokenWorld : World :=
  {| cwd := lit "/work";
     env_GITHUB_ACTIONS := Some (lit "true");
     path_join := λ a b, a ++ lit "/" ++ b;
     fs := {[ lit "/work/.moon/cache/ciReport.json" := RegularFile (lit "{oops") ]};
     decodeReport := λ text,
       if str_eqb text sampleReportText then Some sampleReport else None;
     summaryWritable := true |}.

(** The sample workspace off the CI platform. *)
Definition localWorld : World :=
  {| cwd := lit "/work";
     env_GITHUB_ACTIONS := None;
     path_join := λ a b, a ++ lit "/" ++ b;
     fs := sampleFiles;
     decodeReport := λ text,
       if str_eqb text sampleReportText then Some sampleReport else None;
     summaryWritable := true |}.

(** The sample workspace on a platform that rejects the summary. *)
Definition rejectingWorld : World :=
  {| cwd := lit "/work";
     env_GITHUB_ACTIONS := Some (lit "true");
     path_join := λ a b, a ++ lit "/" ++ b;
     fs := sampleFiles;
     decodeReport := λ text,
       if str_eqb text sampleReportText then Some sampleReport else None;
     summaryWritable := false |}.

(** The sample workspace where the stderr log of the first task is a
    directory. *)
Definition lockedWorld : World :=
  {| cwd := lit "/work";
     env_GITHUB_ACTIONS := Some (lit "true");
     path_join := λ a b, a ++ lit "/" ++ b;
     fs := <[ lit "/work/.moon/cache/states/libs-ui/test/stderr.log" := Unreadable ]>
             sampleFiles;
     decodeReport := λ text,
       if str_eqb text sampleReportText then Some sampleReport else None;
     summaryWritable := true |}.

(** The same workspace seen from another platform: another value of the
    environment flag, another answer to [summary.write()]. *)
Definition onPlatform (w : World) (flag : option jsstring) (writable : bool) : World :=
  {| cwd := cwd w;
     env_GITHUB_ACTIONS := flag;
     path_join := path_join w;
     fs := fs w;
     decodeReport := decodeReport w;
     summaryWritable := writable |}.

(** ** Healthy workspaces *)

Definition isRegular (n : FsNode) : bool :=
  match n with
  | RegularFile _ => true
  | Unreadable => false
  end.

(** Whatever is at [path], if anything, is a file holding a report. *)
Definition holdsReport (w : World) (path : jsstring) : bool :=
  match fs w !! path with
  | Some (RegularFile content) => bool_decide (is_Some (decodeReport w content))
  | Some Unreadable => false
  | None => true
  end.

(** * Properties *)

(** ** Splitting *)

Lemma split_nonempty sep s : split sep s ≠ [].
Proof.
  destruct s as [|c s]; simpl; [done|].
  destruct (c =? sep)%N; [done|].
  by destruct (split sep s).
Qed.

Lemma split_no_sep sep s : sep ∉ s → split sep s = [s].
Proof.
  induction s as [|c s IH]; intros Hs; simpl; [done|].
  apply not_elem_of_cons in Hs as [Hc Hs].
  destruct (N.eqb_spec c sep) as [->|_]; [done|].
  by rewrite IH.
Qed.

Lemma split_app sep p rest :
  sep ∉ p → split sep (p ++ sep :: rest) = p :: split sep rest.
Proof.
  induction p as [|c p IH]; intros Hp; simpl.
  - by rewrite N.eqb_refl.
  - apply not_elem_of_cons in Hp as [Hc Hp].
    destruct (N.eqb_spec c sep) as [->|_]; [done|].
    by rewrite IH.
Qed.

Lemma split_head sep s : ∃ h t, split sep s = h :: t.
Proof.
  destruct (split sep s) as [|h t] eqn:E; [|by eauto].
  by apply split_nonempty in E.
Qed.

(** The project is never replaced by the default: the split has a first
    segment for every target. *)
Lemma parseTarget_project_head tgt :
  ∃ t, split 58 tgt = project (parseTarget tgt) :: t.
Proof.
  unfold parseTarget. destruct (split_head 58 tgt) as (h & t & ->).
  by exists t.
Qed.

(** ** Target parsing *)

(** C1, as stated, fails at the empty target: splitting the empty string
    gives one empty segment, so the project is the empty string and not
    the literal "unknown". *)
Lemma parseTarget_empty_not_unknown :
  parseTarget (lit "") = {| project := lit ""; task := lit "unknown" |}
  ∧ parseTarget (lit "") ≠ {| project := lit "unknown"; task := lit "unknown" |}.
Proof. split; [reflexivity | discriminate]. Qed.

(** C1 (amended): "appA:build" parses to project "appA" and task "build",
    "onlyproject" to project "onlyproject" and task "unknown", and the
    empty string to the empty project and task "unknown".  In general the
    target is split on every colon: the project is the text before the
    first colon (the whole target when there is none, never defaulted),
    and the task is the text between the first and the second colon (up to
    the end when there is no second one), or "unknown" when the target has
    no colon. *)
Theorem parseTarget_segments (p q rest : jsstring) :
  58%N ∉ p → 58%N ∉ q →
  parseTarget (lit "appA:build") = {| project := lit "appA"; task := lit "build" |}
  ∧ parseTarget (lit "onlyproject")
    = {| project := lit "onlyproject"; task := lit "unknown" |}
  ∧ parseTarget (lit "") = {| project := lit ""; task := lit "unknown" |}
  ∧ parseTarget p = {| project := p; task := lit "unknown" |}
  ∧ parseTarget (p ++ lit ":" ++ q) = {| project := p; task := q |}
  ∧ parseTarget (p ++ lit ":" ++ q ++ lit ":" ++ rest) = {| project := p; task := q |}.
Proof.
  intros Hp Hq. repeat split; try reflexivity; unfold parseTarget; simpl.
  - by rewrite split_no_sep.
  - by rewrite split_app, split_no_sep.
  - by rewrite !split_app.
Qed.

Lemma parseTarget_segments_witness :
  parseTarget (lit "libs/ui:test:extra") = {| project := lit "libs/ui"; task := lit "test" |}.
Proof.
  refine (proj2 (proj2 (proj2 (proj2 (proj2
    (parseTarget_segments (lit "libs/ui") (lit "test") (lit "extra") _ _)))))).
  - apply (bool_decide_unpack _). vm_compute. reflexivity.
  - apply (bool_decide_unpack _). vm_compute. reflexivity.
Defined.

(** ** Status classification *)

Lemma elem_of_actionStatuses (P : jsstring → Prop) :
  P (lit "running") → P (lit "passed") → P (lit "failed") → P (lit "timed-out") →
  P (lit "aborted") → P (lit "invalid") → P (lit "failed-and-abort") →
  P (lit "skipped") → P (lit "cached") → P (lit "cached-from-remote") →
  ∀ s, s ∈ actionStatuses → P s.
Proof.
  intros ?????????? s Hs. unfold actionStatuses in Hs.
  repeat (apply elem_of_cons in Hs as [->|Hs]; [assumption|]).
  by apply elem_of_nil in Hs.
Qed.

Lemma getStatusEmoji_other s : s ∉ actionStatuses → getStatusEmoji s = emoji_unknown.
Proof.
  intros Hs. unfold getStatusEmoji, str_eqb.
  repeat (case_bool_decide as E;
          [exfalso; apply Hs; rewrite E; apply (bool_decide_unpack _);
           vm_compute; reflexivity | clear E]).
  reflexivity.
Qed.

Lemma getStatusEmoji_nonempty s : getStatusEmoji s ≠ [].
Proof.
  unfold getStatusEmoji.
  repeat (destruct (str_eqb s _); [by vm_compute|]).
  by vm_compute.
Qed.

Lemma statusBadge_other s :
  s ∉ actionStatuses →
  statusBadge s = if bool_decide (s ∈ objectPrototypeKeys) then VInherited s else VUndefined.
Proof.
  intros Hs. unfold statusBadge.
  replace (statusBadges !! s) with (@None jsstring); [done|].
  symmetry. apply not_elem_of_list_to_map_1. exact Hs.
Qed.

Lemma statusBadge_known s :
  s ∈ actionStatuses → ∃ b, statusBadge s = VString b ∧ b ≠ [].
Proof.
  revert s. apply elem_of_actionStatuses;
    (eexists; split; [vm_compute; reflexivity | discriminate]).
Qed.

(** C2, as stated, fails for the console badge: the badge lookup has no
    fallback, and for a status outside the enumeration it yields
    [undefined], not a label string. *)
Lemma statusBadge_unrecognised_undefined :
  statusBadge (lit "weird") = VUndefined
  ∧ ¬ ∃ b, statusBadge (lit "weird") = VString b ∧ b ≠ [].
Proof.
  assert (E : statusBadge (lit "weird") = VUndefined) by (vm_compute; reflexivity).
  split; [exact E|]. intros (b & Hb & _). rewrite E in Hb. discriminate.
Qed.

(** C2 (amended): neither classifier raises on any status value.  The
    summary emoji is a non-empty string for every value, and the unknown
    glyph for every value outside the ActionStatus enumeration.  The
    console badge is a non-empty label string for every value of the
    enumeration; for a value outside it the lookup has no "unknown"
    fallback and yields [undefined], or the member of [Object.prototype]
    of that name. *)
Theorem classifiers_total (s : jsstring) :
  getStatusEmoji s ≠ []
  ∧ if bool_decide (s ∈ actionStatuses)
    then ∃ b, statusBadge s = VString b ∧ b ≠ []
    else getStatusEmoji s = emoji_unknown
         ∧ (statusBadge s = VUndefined ∨ statusBadge s = VInherited s).
Proof.
  split; [apply getStatusEmoji_nonempty|].
  case_bool_decide as Hs.
  - by apply statusBadge_known.
  - split; [by apply getStatusEmoji_other|].
    rewrite statusBadge_other by done. case_bool_decide; auto.
Qed.

(** C9: the summary emoji of "passed" is U+2705; of "failed", "timed-out",
    "aborted", "invalid" and "failed-and-abort" U+274C; of "skipped"
    U+23ED U+FE0F; of "cached" and "cached-from-remote" U+1F4BE; of
    "running" U+1F3C3; and of any other value U+2753. *)
Theorem getStatusEmoji_table (s : jsstring) :
  s ∉ actionStatuses →
  getStatusEmoji (lit "passed") = [9989]%N
  ∧ getStatusEmoji (lit "failed") = [10060]%N
  ∧ getStatusEmoji (lit "timed-out") = [10060]%N
  ∧ getStatusEmoji (lit "aborted") = [10060]%N
  ∧ getStatusEmoji (lit "invalid") = [10060]%N
  ∧ getStatusEmoji (lit "failed-and-abort") = [10060]%N
  ∧ getStatusEmoji (lit "skipped") = [9197; 65039]%N
  ∧ getStatusEmoji (lit "cached") = [55357; 56510]%N
  ∧ getStatusEmoji (lit "cached-from-remote") = [55357; 56510]%N
  ∧ getStatusEmoji (lit "running") = [55356; 57283]%N
  ∧ getStatusEmoji s = [10067]%N.
Proof.
  intros Hs. repeat split; try (vm_compute; reflexivity).
  by rewrite getStatusEmoji_other.
Qed.

Lemma getStatusEmoji_table_witness : getStatusEmoji (lit "success") = [10067]%N.
Proof.
  refine (proj2 (proj2 (proj2 (proj2 (proj2 (proj2 (proj2 (proj2 (proj2 (proj2 (getStatusEmoji_table (lit "success") _))))))))))).
  apply (bool_decide_unpack _). vm_compute. reflexivity.
Defined.

(** ** Sanitizing and trimming *)

Lemma sanitizeProjectName_no_slash p : 47%N ∉ sanitizeProjectName p.
Proof.
  unfold sanitizeProjectName, replaceAll. intros H.
  apply list_elem_of_fmap in H as (c & Hc & _).
  destruct (N.eqb_spec c 47); [discriminate | congruence].
Qed.

Lemma sanitizeProjectName_lookup p i :
  sanitizeProjectName p !! i = (λ c, if (c =? 47)%N then 45%N else c) <$> p !! i.
Proof. unfold sanitizeProjectName, replaceAll. apply list_lookup_fmap. Qed.

Lemma trimStart_nil_iff s : trimStart s = [] ↔ Forall (λ c, isWhiteSpace c = true) s.
Proof.
  induction s as [|c s IH]; simpl.
  - split; [constructor | done].
  - destruct (isWhiteSpace c) eqn:E.
    + rewrite IH. split; [by constructor | by inversion 1].
    + split; [done | inversion 1; congruence].
Qed.

Lemma trimStart_head s c t : trimStart s = c :: t → isWhiteSpace c = false.
Proof.
  induction s as [|d s IH]; simpl; [done|].
  destruct (isWhiteSpace d) eqn:Ed; [done|]. by intros [= <- _].
Qed.

(** Trimming leaves nothing exactly when every code unit is white space. *)
Lemma trim_nil_iff s : trim s = [] ↔ Forall (λ c, isWhiteSpace c = true) s.
Proof.
  unfold trim, trimEnd. split.
  - intros H. apply trimStart_nil_iff.
    apply (f_equal reverse) in H. rewrite reverse_involutive in H.
    apply trimStart_nil_iff in H. rewrite Forall_reverse in H.
    destruct (trimStart s) as [|c t] eqn:E; [done|].
    apply trimStart_head in E. apply Forall_cons in H as [H _].
    simpl in H. congruence.
  - intros H. apply trimStart_nil_iff in H. by rewrite H.
Qed.

(** ** The trace-and-error monad *)

Lemma trace_bind {A B} (m : M A) (f : A → M B) :
  trace (bind m f)
  = trace m ++ match result m with inr a => trace (f a) | inl _ => [] end.
Proof.
  destruct m as [t [e|a]]; simpl; [by rewrite app_nil_r|].
  by destruct (f a).
Qed.

Lemma result_bind {A B} (m : M A) (f : A → M B) :
  result (bind m f) = match result m with inr a => result (f a) | inl e => inl e end.
Proof.
  destruct m as [t [e|a]]; simpl; [done|]. by destruct (f a).
Qed.

Lemma bind_inr {A B} (m : M A) (f : A → M B) a :
  result m = inr a → bind m f = (trace m ++ trace (f a), result (f a)).
Proof.
  destruct m as [t [e|a']]; simpl; intros [= ->]. by destruct (f a).
Qed.

Lemma bind_inl {A B} (m : M A) (f : A → M B) e :
  result m = inl e → bind m f = (trace m, inl e).
Proof. destruct m as [t [e'|a]]; simpl; by intros [= ->]. Qed.

Lemma emitsOnly_ret {A} P (a : A) : emitsOnly P (ret a).
Proof. constructor. Qed.

Lemma emitsOnly_raise {A} P e : emitsOnly P (@raise A e).
Proof. constructor. Qed.

Lemma emitsOnly_emit P ev : P ev = true → emitsOnly P (emit ev).
Proof. intros H. by repeat constructor. Qed.

Lemma emitsOnly_bind {A B} P (m : M A) (f : A → M B) :
  emitsOnly P m → (∀ a, emitsOnly P (f a)) → emitsOnly P (bind m f).
Proof.
  unfold emitsOnly. intros Hm Hf. rewrite trace_bind. apply Forall_app. split; [done|].
  destruct (result m); [constructor | apply Hf].
Qed.

Lemma emitsOnly_when P b m : emitsOnly P m → emitsOnly P (when b m).
Proof. destruct b; [done | intros _; constructor]. Qed.

Lemma emitsOnly_impl {A} (P Q : Event → bool) (m : M A) :
  (∀ ev, P ev = true → Q ev = true) → emitsOnly P m → emitsOnly Q m.
Proof. intros H Hm. unfold emitsOnly in *. by eapply Forall_impl. Qed.

(** ** File access *)

Lemma fileExists_spec w p :
  fileExists w p = ([FsStat p], inr (bool_decide (is_Some (fs w !! p)))).
Proof. reflexivity. Qed.

Lemma readLog_missing w p : fs w !! p = None → readLog w p = ([FsStat p], inr []).
Proof.
  intros H. unfold readLog, fileExists, readFile, bind, emit, ret. simpl.
  rewrite H. by rewrite bool_decide_false by (by intros [? ?]).
Qed.

Lemma readLog_regular w p c :
  fs w !! p = Some (RegularFile c) → readLog w p = ([FsStat p; FsReadFile p], inr c).
Proof.
  intros H. unfold readLog, fileExists, readFile, bind, emit, ret. simpl.
  rewrite H. by rewrite bool_decide_true by eauto.
Qed.

Lemma readLog_unreadable w p :
  fs w !! p = Some Unreadable →
  readLog w p = ([FsStat p; FsReadFile p], inl (ReadError p)).
Proof.
  intros H. unfold readLog, fileExists, readFile, bind, emit, ret, raise. simpl.
  rewrite H. by rewrite bool_decide_true by eauto.
Qed.

(** ** Task log resolver *)

Lemma sanitizeProjectName_length p : length (sanitizeProjectName p) = length p.
Proof. unfold sanitizeProjectName, replaceAll. apply length_fmap. Qed.

Lemma readStatus_bind w root id :
  readStatus w root id
  = bind (readLog w (statusDir root id ++ lit "/stdout.log")) (λ out,
      bind (readLog w (statusDir root id ++ lit "/stderr.log")) (λ err,
        ret (out, err))).
Proof. reflexivity. Qed.

(** What reading one log does, by what is at its path. *)
Lemma readLog_cases w p :
  readLog w p
  = match fs w !! p with
    | None => ([FsStat p], inr [])
    | Some (RegularFile c) => ([FsStat p; FsReadFile p], inr c)
    | Some Unreadable => ([FsStat p; FsReadFile p], inl (ReadError p))
    end.
Proof.
  destruct (fs w !! p) as [[c|]|] eqn:E.
  - by apply readLog_regular.
  - by apply readLog_unreadable.
  - by apply readLog_missing.
Qed.

(** C7: the two logs of a target are [stdout.log] and [stderr.log] under
    [<root>/.moon/cache/states/<sanitized project>/<task>], where
    sanitizing replaces every "/" of the project by "-" and leaves every
    other code unit in place ("libs/ui" becomes "libs-ui").  Each path is
    looked up on its own and read only when it exists: a stream whose file
    is missing is the empty string, whatever the other one is, and no
    error is raised. *)
Theorem readStatus_logs (w : World) (root : jsstring) (id : TargetIdentity)
    (out err : jsstring) :
  let dir := root ++ lit "/.moon/cache/states/" ++ sanitizeProjectName (project id)
               ++ lit "/" ++ task id in
  let stdoutPath := dir ++ lit "/stdout.log" in
  let stderrPath := dir ++ lit "/stderr.log" in
  (fs w !! stdoutPath = Some (RegularFile out) ∨ fs w !! stdoutPath = None ∧ out = []) →
  (fs w !! stderrPath = Some (RegularFile err) ∨ fs w !! stderrPath = None ∧ err = []) →
  result (readStatus w root id) = inr (out, err)
  ∧ trace (readStatus w root id)
    = FsStat stdoutPath
      :: (match fs w !! stdoutPath with Some _ => [FsReadFile stdoutPath] | None => [] end
          ++ FsStat stderrPath
             :: match fs w !! stderrPath with
                | Some _ => [FsReadFile stderrPath]
                | None => []
                end)
  ∧ sanitizeProjectName (lit "libs/ui") = lit "libs-ui"
  ∧ (47%N ∉ sanitizeProjectName (project id))
  ∧ length (sanitizeProjectName (project id)) = length (project id)
  ∧ ∀ i c, project id !! i = Some c →
      sanitizeProjectName (project id) !! i = Some (if (c =? 47)%N then 45%N else c).
Proof.
  intros dir stdoutPath stderrPath Hout Herr.
  rewrite readStatus_bind. change (statusDir root id) with dir.
  fold stdoutPath stderrPath. rewrite !(readLog_cases w).
  repeat split.
  - destruct Hout as [->|[-> ->]], Herr as [->|[-> ->]]; reflexivity.
  - destruct Hout as [->|[-> ->]], Herr as [->|[-> ->]]; reflexivity.
  - apply sanitizeProjectName_no_slash.
  - apply sanitizeProjectName_length.
  - intros i c Hc. by rewrite sanitizeProjectName_lookup, Hc.
Qed.

Lemma readStatus_logs_witness :
  result (readStatus sampleWorld (lit "/work")
            {| project := lit "libs/ui"; task := lit "test" |})
  = inr (lit "  12 passed " ++ [10%N], []).
Proof.
  refine (proj1 (readStatus_logs sampleWorld (lit "/work")
                   {| project := lit "libs/ui"; task := lit "test" |}
                   (lit "  12 passed " ++ [10%N]) [] _ _)).
  - left. vm_compute. reflexivity.
  - right. split; [vm_compute; reflexivity | reflexivity].
Defined.

(** ** Report locator *)

Lemma loadReport_unfold w root :
  loadReport w root
  = bind (emit (CoreDebug (lit "Finding run report at "
                  ++ path_join w (lit ".moon/cache") (lit "ciReport.json")))) (λ _,
    bind (fileExists w (reportPath w root (lit "ciReport.json"))) (λ found,
      if found then
        bind (emit (CoreDebug (lit "Found!"))) (λ _,
        bind (parseJson w (reportPath w root (lit "ciReport.json"))) (λ report,
        ret (Some report)))
      else
        bind (emit (CoreDebug (lit "Finding run report at "
                      ++ path_join w (lit ".moon/cache") (lit "runReport.json")))) (λ _,
        bind (fileExists w (reportPath w root (lit "runReport.json"))) (λ found,
          if found then
            bind (emit (CoreDebug (lit "Found!"))) (λ _,
            bind (parseJson w (reportPath w root (lit "runReport.json"))) (λ report,
            ret (Some report)))
          else ret None)))).
Proof. reflexivity. Qed.

Lemma parseJson_cases w p :
  parseJson w p
  = ([FsParseJson p],
     match fs w !! p with
     | Some (RegularFile content) =>
         match decodeReport w content with
         | Some report => inr report
         | None => inl (ParseError p)
         end
     | _ => inl (ReadError p)
     end).
Proof.
  unfold parseJson, bind, emit, ret, raise.
  destruct (fs w !! p) as [[c|]|]; [|done..].
  by destruct (decodeReport w c).
Qed.

(** The locator when the first candidate exists, whatever is at its path. *)
Lemma loadReport_first w root node :
  fs w !! reportPath w root (lit "ciReport.json") = Some node →
  loadReport w root
  = ([ CoreDebug (lit "Finding run report at "
                    ++ path_join w (lit ".moon/cache") (lit "ciReport.json"));
       FsStat (reportPath w root (lit "ciReport.json"));
       CoreDebug (lit "Found!");
       FsParseJson (reportPath w root (lit "ciReport.json")) ],
     match node with
     | RegularFile content =>
         match decodeReport w content with
         | Some report => inr (Some report)
         | None => inl (ParseError (reportPath w root (lit "ciReport.json")))
         end
     | Unreadable => inl (ReadError (reportPath w root (lit "ciReport.json")))
     end).
Proof.
  intros H. rewrite loadReport_unfold, fileExists_spec, parseJson_cases, H.
  rewrite bool_decide_true by eauto.
  destruct node as [c|]; [|done]. by destruct (decodeReport w c).
Qed.

(** The locator when the first candidate is missing and the second exists. *)
Lemma loadReport_second w root node :
  fs w !! reportPath w root (lit "ciReport.json") = None →
  fs w !! reportPath w root (lit "runReport.json") = Some node →
  loadReport w root
  = ([ CoreDebug (lit "Finding run report at "
                    ++ path_join w (lit ".moon/cache") (lit "ciReport.json"));
       FsStat (reportPath w root (lit "ciReport.json"));
       CoreDebug (lit "Finding run report at "
                    ++ path_join w (lit ".moon/cache") (lit "runReport.json"));
       FsStat (reportPath w root (lit "runReport.json"));
       CoreDebug (lit "Found!");
       FsParseJson (reportPath w root (lit "runReport.json")) ],
     match node with
     | RegularFile content =>
         match decodeReport w content with
         | Some report => inr (Some report)
         | None => inl (ParseError (reportPath w root (lit "runReport.json")))
         end
     | Unreadable => inl (ReadError (reportPath w root (lit "runReport.json")))
     end).
Proof.
  intros H1 H2. rewrite loadReport_unfold, !fileExists_spec, !parseJson_cases, H1, H2.
  rewrite bool_decide_false by (by intros [? ?]).
  rewrite bool_decide_true by eauto.
  destruct node as [c|]; [|done]. by destruct (decodeReport w c).
Qed.

Lemma loadReport_none w root :
  fs w !! reportPath w root (lit "ciReport.json") = None →
  fs w !! reportPath w root (lit "runReport.json") = None →
  loadReport w root
  = ([ CoreDebug (lit "Finding run report at "
                    ++ path_join w (lit ".moon/cache") (lit "ciReport.json"));
       FsStat (reportPath w root (lit "ciReport.json"));
       CoreDebug (lit "Finding run report at "
                    ++ path_join w (lit ".moon/cache") (lit "runReport.json"));
       FsStat (reportPath w root (lit "runReport.json")) ],
     inr None).
Proof.
  intros H1 H2. rewrite loadReport_unfold, !fileExists_spec, H1, H2.
  by rewrite !bool_decide_false by (by intros [? ?]).
Qed.

(** C6: the locator tries [ciReport.json] and then [runReport.json] under
    [.moon/cache] of the workspace root.  When the first exists and holds
    a report, that report is returned after one existence check and one
    parse of the first path, whether or not the second exists, and no
    file-system access ever touches the second path.  When the first is
    missing and the second exists and holds a report, the second is
    returned.  When neither exists, the result is the "no report" signal
    after the two existence checks. *)
Theorem loadReport_priority (w : World) (root : jsstring) :
  let ci := reportPath w root (lit "ciReport.json") in
  let run := reportPath w root (lit "runReport.json") in
  let finding := λ fileName,
    CoreDebug (lit "Finding run report at " ++ path_join w (lit ".moon/cache") fileName) in
  (∀ content report,
     fs w !! ci = Some (RegularFile content) → decodeReport w content = Some report →
     loadReport w root
     = ([finding (lit "ciReport.json"); FsStat ci; CoreDebug (lit "Found!"); FsParseJson ci],
        inr (Some report)))
  ∧ (∀ node, fs w !! ci = Some node → ci ≠ run →
       Forall (λ ev, touches run ev = false) (trace (loadReport w root)))
  ∧ (∀ content report,
       fs w !! ci = None →
       fs w !! run = Some (RegularFile content) → decodeReport w content = Some report →
       loadReport w root
       = ([finding (lit "ciReport.json"); FsStat ci;
           finding (lit "runReport.json"); FsStat run;
           CoreDebug (lit "Found!"); FsParseJson run],
          inr (Some report)))
  ∧ (fs w !! ci = None → fs w !! run = None →
     loadReport w root
     = ([finding (lit "ciReport.json"); FsStat ci;
         finding (lit "runReport.json"); FsStat run],
        inr None)).
Proof.
  intros ci run finding. repeat split.
  - intros content report H1 H2. rewrite (loadReport_first _ _ _ H1). by rewrite H2.
  - intros node H1 Hne. rewrite (loadReport_first _ _ _ H1). simpl.
    unfold touches, str_eqb. fold ci.
    repeat constructor; by rewrite bool_decide_false.
  - intros content report H1 H2 H3. rewrite (loadReport_second _ _ _ H1 H2).
    by rewrite H3.
  - intros H1 H2. by apply loadReport_none.
Qed.

Lemma loadReport_priority_witness :
  loadReport sampleWorld (lit "/work")
  = ([ CoreDebug (lit "Finding run report at .moon/cache/ciReport.json");
       FsStat (lit "/work/.moon/cache/ciReport.json");
       CoreDebug (lit "Found!");
       FsParseJson (lit "/work/.moon/cache/ciReport.json") ],
     inr (Some sampleReport))
  ∧ is_Some (fs sampleWorld !! lit "/work/.moon/cache/runReport.json").
Proof.
  split.
  - refine (proj1 (loadReport_priority sampleWorld (lit "/work"))
              sampleReportText sampleReport _ _).
    + vm_compute. reflexivity.
    + vm_compute. reflexivity.
  - vm_compute. eauto.
Defined.

(** ** The loop over the actions *)

Lemma renderGroup_spec action r out err :
  renderGroup action r out err
  = (CoreStartGroup (statusBadge (status action)) (bold (target r))
       :: match command r with
          | Some c => [ConsoleLog (blue (lit "$ " ++ c))]
          | None => []
          end
       ++ (if hasStdout r then [ConsoleLog stdBadges_out; ConsoleLog out] else [])
       ++ (if hasStderr r then [ConsoleLog stdBadges_err; ConsoleLog err] else [])
       ++ [CoreEndGroup],
     inr tt).
Proof.
  unfold renderGroup. by destruct (command r), (hasStdout r), (hasStderr r).
Qed.

Lemma forActions_other w root action rest acc :
  isRunTask action = false →
  forActions w root (action :: rest) acc = forActions w root rest acc.
Proof. unfold isRunTask. simpl. by destruct (node action). Qed.

Lemma forActions_step w root action rest acc tgt :
  node action = RunTask tgt →
  forActions w root (action :: rest) acc
  = bind (readStatus w root (parseTarget tgt)) (λ logs,
      bind (renderGroup action (taskResultOf action tgt logs.1 logs.2) logs.1 logs.2) (λ _,
        forActions w root rest (acc ++ [taskResultOf action tgt logs.1 logs.2]))).
Proof. intros H. simpl. by rewrite H. Qed.

(** The records already pushed do not influence the rest of the loop. *)
Lemma forActions_acc w root acts acc :
  forActions w root acts acc
  = (trace (forActions w root acts []),
     match result (forActions w root acts []) with
     | inr rs => inr (acc ++ rs)
     | inl e => inl e
     end).
Proof.
  revert acc. induction acts as [|action rest IH]; intros acc.
  - simpl. by rewrite app_nil_r.
  - destruct (node action) as [tgt|other] eqn:E.
    + rewrite !(forActions_step _ _ _ _ _ _ E).
      destruct (readStatus w root (parseTarget tgt)) as [t [e|[out err]]]; [done|].
      cbn [bind trace result fst snd]. rewrite !renderGroup_spec.
      cbn [bind trace result fst snd app].
      rewrite (IH (acc ++ _)), (IH [_]).
      destruct (forActions w root rest []) as [t' [e|rs]]; cbn [trace result fst snd];
        [done|].
      by rewrite <- (app_assoc acc).
    + rewrite !forActions_other by (unfold isRunTask; by rewrite E). apply IH.
Qed.

(** One turn of the loop on a task-execution action. *)
Lemma forActions_run w root action rest tgt :
  node action = RunTask tgt →
  forActions w root (action :: rest) []
  = match result (readStatus w root (parseTarget tgt)) with
    | inl e => (trace (readStatus w root (parseTarget tgt)), inl e)
    | inr (out, err) =>
        (trace (readStatus w root (parseTarget tgt))
           ++ trace (renderGroup action (taskResultOf action tgt out err) out err)
           ++ trace (forActions w root rest []),
         match result (forActions w root rest []) with
         | inr rs => inr (taskResultOf action tgt out err :: rs)
         | inl e => inl e
         end)
    end.
Proof.
  intros E. rewrite (forActions_step _ _ _ _ _ _ E).
  destruct (readStatus w root (parseTarget tgt)) as [t [e|[out err]]]; [done|].
  cbn [bind trace result fst snd]. rewrite renderGroup_spec.
  cbn [bind trace result fst snd]. rewrite forActions_acc.
  by destruct (forActions w root rest []) as [t' [e|rs]].
Qed.

Lemma isRunTask_true action : isRunTask action = true → ∃ tgt, node action = RunTask tgt.
Proof. unfold isRunTask. destruct (node action); [eauto | done]. Qed.

(** A loop that completes built one record per task-execution action, in
    the order of the actions. *)
Lemma forActions_results w root acts rs :
  result (forActions w root acts []) = inr rs →
  Forall2 (resultOfAction w root) (List.filter isRunTask acts) rs.
Proof.
  revert rs. induction acts as [|action rest IH]; intros rs.
  - simpl. intros [= <-]. constructor.
  - cbn [List.filter]. destruct (isRunTask action) eqn:E.
    + destruct (isRunTask_true _ E) as [tgt Htgt].
      rewrite (forActions_run _ _ _ _ _ Htgt).
      destruct (result (readStatus w root (parseTarget tgt))) as [e|[out err]] eqn:Hlogs;
        [done|].
      cbn [result snd].
      destruct (result (forActions w root rest [])) as [e|rs'] eqn:Hrest; [done|].
      intros [= <-]. constructor; [|by apply IH].
      by exists tgt, out, err.
    + rewrite forActions_other by done. apply IH.
Qed.

(** ** What each component emits *)

Lemma omap_none {A B} (f : A → option B) (l : list A) :
  Forall (λ x, f x = None) l → omap f l = [].
Proof. induction 1 as [|x l Hx _ IH]; [done|]. simpl. by rewrite Hx. Qed.

Lemma filter_none {A} (p : A → bool) (l : list A) :
  Forall (λ x, p x = false) l → List.filter p l = [].
Proof. induction 1 as [|x l Hx _ IH]; [done|]. simpl. by rewrite Hx. Qed.

Lemma emitsOnly_Forall {A} (P : Event → bool) (Q : Event → Prop) (m : M A) :
  emitsOnly P m → (∀ ev, P ev = true → Q ev) → Forall Q (trace m).
Proof. intros Hm H. by eapply Forall_impl. Qed.

Lemma readLog_emits w p : emitsOnly isLogAccess (readLog w p).
Proof. rewrite readLog_cases. by repeat case_match; repeat constructor. Qed.

Lemma readStatus_emits w root id : emitsOnly isLogAccess (readStatus w root id).
Proof.
  rewrite readStatus_bind.
  apply emitsOnly_bind; [apply readLog_emits | intros out].
  apply emitsOnly_bind; [apply readLog_emits | intros err]. apply emitsOnly_ret.
Qed.

Lemma renderGroup_emits action r out err :
  emitsOnly isConsoleEvent (renderGroup action r out err).
Proof.
  rewrite renderGroup_spec. unfold emitsOnly. cbn [trace fst].
  destruct (command r), (hasStdout r), (hasStderr r); by repeat constructor.
Qed.

Lemma forActions_emits w root acts acc : emitsOnly isLoopEvent (forActions w root acts acc).
Proof.
  revert acc. induction acts as [|action rest IH]; intros acc; [constructor|].
  destruct (node action) as [tgt|other] eqn:E.
  - rewrite (forActions_step _ _ _ _ _ _ E).
    apply emitsOnly_bind; [|intros logs].
    { eapply emitsOnly_impl; [|apply readStatus_emits]. by intros []. }
    apply emitsOnly_bind; [|intros _; apply IH].
    eapply emitsOnly_impl; [|apply renderGroup_emits]. by intros [].
  - rewrite forActions_other by (unfold isRunTask; by rewrite E). apply IH.
Qed.

Lemma loadReport_emits w root : emitsOnly isLocatorEvent (loadReport w root).
Proof.
  rewrite loadReport_unfold, !fileExists_spec, !parseJson_cases.
  unfold emitsOnly.
  repeat (case_bool_decide || case_match); by repeat constructor.
Qed.

Lemma initSummary_spec :
  initSummary
  = ([ SummaryAddHeading (lit "Moon CI Retrospect Results") None;
       SummaryAddRaw
         (lit "This report shows the results of Moon CI task executions." ++ [10%N]) ],
     inr tt).
Proof. reflexivity. Qed.

Lemma addDetail_spec r :
  addDetail r
  = (SummaryAddHeading (lit "Task: " ++ target r) (Some 3%N)
       :: (if truthy (command r) then [SummaryAddCodeBlock (command r) (lit "bash")] else [])
       ++ (if hasStdout r
           then [SummaryAddHeading (lit "STDOUT") (Some 4%N);
                 SummaryAddCodeBlock (stdout r) (lit "text")]
           else [])
       ++ (if hasStderr r
           then [SummaryAddHeading (lit "STDERR") (Some 4%N);
                 SummaryAddCodeBlock (stderr r) (lit "text")]
           else [])
       ++ [SummaryAddBreak],
     inr tt).
Proof.
  unfold addDetail. by destruct (truthy (command r)), (hasStdout r), (hasStderr r).
Qed.

Lemma addDetails_spec rs :
  addDetails rs = (concat ((λ r, trace (addDetail r)) <$> rs), inr tt).
Proof.
  induction rs as [|r rs IH]; [done|].
  cbn [addDetails]. rewrite (bind_inr _ _ tt) by (by rewrite addDetail_spec).
  by rewrite IH.
Qed.

Lemma buildSummary_spec w rs :
  buildSummary w rs
  = (SummaryAddTable (tableHeader :: (tableRow <$> rs))
       :: SummaryAddBreak
       :: concat ((λ r, trace (addDetail r)) <$> rs) ++ [SummaryWrite],
     if summaryWritable w then inr tt else inl SummaryWriteError).
Proof.
  unfold buildSummary, summaryWrite. rewrite addDetails_spec.
  by destruct (summaryWritable w).
Qed.

Lemma addDetail_emits r : emitsOnly isSummaryEvent (addDetail r).
Proof.
  rewrite addDetail_spec. unfold emitsOnly. cbn [trace fst].
  destruct (truthy (command r)), (hasStdout r), (hasStderr r); by repeat constructor.
Qed.

Lemma addDetails_emits rs : emitsOnly isSummaryEvent (addDetails rs).
Proof.
  induction rs as [|r rs IH]; [constructor|].
  apply emitsOnly_bind; [apply addDetail_emits | intros _; apply IH].
Qed.

Lemma buildSummary_emits w rs : emitsOnly isSummaryEvent (buildSummary w rs).
Proof.
  unfold buildSummary, summaryWrite.
  apply emitsOnly_bind; [by apply emitsOnly_emit | intros _].
  apply emitsOnly_bind; [by apply emitsOnly_emit | intros _].
  apply emitsOnly_bind; [apply addDetails_emits | intros _].
  apply emitsOnly_bind; [by apply emitsOnly_emit | intros _].
  destruct (summaryWritable w); [apply emitsOnly_ret | apply emitsOnly_raise].
Qed.

(** ** The main routine *)

Lemma main_unfold w :
  main w
  = bind (loadReport w (cwd w)) (λ report,
      match report with
      | None => emit (CoreWarning noReportWarning)
      | Some report =>
          bind (when (isGitHubActions w) initSummary) (λ _,
          bind (forActions w (cwd w) (actions report) []) (λ taskResults,
            when (isGitHubActions w && isGitHubActions w
                  && bool_decide (0 < length taskResults))
              (buildSummary w taskResults)))
      end).
Proof. reflexivity. Qed.

Lemma when_initSummary w :
  when (isGitHubActions w) initSummary
  = (if isGitHubActions w then trace initSummary else [], inr tt).
Proof. by destruct (isGitHubActions w). Qed.

Lemma main_no_report w :
  result (loadReport w (cwd w)) = inr None →
  main w = (trace (loadReport w (cwd w)) ++ [CoreWarning noReportWarning], inr tt).
Proof. intros H. by rewrite main_unfold, (bind_inr _ _ _ H). Qed.

Lemma main_load_error w e :
  result (loadReport w (cwd w)) = inl e →
  main w = (trace (loadReport w (cwd w)), inl e).
Proof. intros H. by rewrite main_unfold, (bind_inl _ _ _ H). Qed.

Lemma main_loop_error w report e :
  result (loadReport w (cwd w)) = inr (Some report) →
  result (forActions w (cwd w) (actions report) []) = inl e →
  main w
  = (trace (loadReport w (cwd w))
       ++ (if isGitHubActions w then trace initSummary else [])
       ++ trace (forActions w (cwd w) (actions report) []),
     inl e).
Proof.
  intros H1 H2. rewrite main_unfold, (bind_inr _ _ _ H1), when_initSummary.
  rewrite (bind_inr _ _ tt) by done. by rewrite (bind_inl _ _ _ H2).
Qed.

Lemma main_completed w report rs :
  result (loadReport w (cwd w)) = inr (Some report) →
  result (forActions w (cwd w) (actions report) []) = inr rs →
  main w
  = (trace (loadReport w (cwd w))
       ++ (if isGitHubActions w then trace initSummary else [])
       ++ trace (forActions w (cwd w) (actions report) [])
       ++ (if isGitHubActions w && bool_decide (0 < length rs)
           then trace (buildSummary w rs) else []),
     if isGitHubActions w && bool_decide (0 < length rs)
     then result (buildSummary w rs) else inr tt).
Proof.
  intros H1 H2. rewrite main_unfold, (bind_inr _ _ _ H1), when_initSummary.
  rewrite (bind_inr _ _ tt) by done. rewrite (bind_inr _ _ _ H2).
  cbn [trace result fst snd].
  by destruct (isGitHubActions w), (bool_decide (0 < length rs)).
Qed.

(** ** Output presence *)

Lemma trim_nonempty_iff s : trim s ≠ [] ↔ ∃ c, c ∈ s ∧ isWhiteSpace c = false.
Proof.
  rewrite trim_nil_iff. split.
  - intros H. apply not_Forall_Exists in H; [|apply _].
    apply Exists_exists in H as (c & Hc & Hw). exists c. split; [done|].
    simpl in Hw. by destruct (isWhiteSpace c).
  - intros (c & Hc & Hw) H. rewrite Forall_forall in H. specialize (H c Hc). congruence.
Qed.

Lemma taskResultOf_stdout action tgt out err :
  stdout (taskResultOf action tgt out err)
  = if bool_decide (trim out = []) then None else Some out.
Proof. unfold taskResultOf, str_eqb. cbn [stdout]. by repeat case_bool_decide. Qed.

Lemma taskResultOf_stderr action tgt out err :
  stderr (taskResultOf action tgt out err)
  = if bool_decide (trim err = []) then None else Some err.
Proof. unfold taskResultOf, str_eqb. cbn [stderr]. by repeat case_bool_decide. Qed.

Lemma elem_of_list_filter_1 {A} (p : A → bool) (x : A) (l : list A) :
  x ∈ List.filter p l → x ∈ l.
Proof.
  induction l as [|y l IH]; simpl; [done|].
  destruct (p y).
  - intros [->|H]%elem_of_cons; [left | right; auto].
  - intros H. right. auto.
Qed.

(** C3: every record of a completed loop was made from the two logs read
    for a task-execution action of the report, and its stdout field is
    absent when the log trims to the empty string and is the log itself,
    untrimmed, otherwise; so the field is present exactly when the log
    holds a code unit that is not white space.  Likewise for stderr. *)
Theorem output_fields_presence (w : World) (root : jsstring) (acts : list Action)
    (rs : list TaskResult) :
  result (forActions w root acts []) = inr rs →
  Forall (λ r, ∃ action tgt out err,
            action ∈ acts
            ∧ node action = RunTask tgt
            ∧ result (readStatus w root (parseTarget tgt)) = inr (out, err)
            ∧ stdout r = (if bool_decide (trim out = []) then None else Some out)
            ∧ stderr r = (if bool_decide (trim err = []) then None else Some err)
            ∧ (is_Some (stdout r) ↔ ∃ c, c ∈ out ∧ isWhiteSpace c = false)
            ∧ (is_Some (stderr r) ↔ ∃ c, c ∈ err ∧ isWhiteSpace c = false)
            ∧ hasStdout r = bool_decide (is_Some (stdout r))
            ∧ hasStderr r = bool_decide (is_Some (stderr r))) rs.
Proof.
  intros H. apply forActions_results in H.
  apply Forall_forall. intros r Hr.
  apply list_elem_of_lookup in Hr as [i Hi].
  destruct (Forall2_lookup_r _ _ _ _ _ H Hi) as (action & Ha & tgt & out & err & Hn & Hl & ->).
  exists action, tgt, out, err.
  split; [eapply elem_of_list_filter_1, list_elem_of_lookup_2, Ha|].
  split; [done|]. split; [done|].
  rewrite taskResultOf_stdout, taskResultOf_stderr.
  split; [done|]. split; [done|].
  rewrite <- !trim_nonempty_iff.
  unfold taskResultOf, str_eqb. cbn [hasStdout hasStderr].
  repeat split; repeat case_bool_decide;
    try done; try (by intros [? ?]); try (by eauto);
    try (exfalso; eauto).
Qed.

Lemma output_fields_presence_witness :
  Forall (λ r, ∃ action tgt out err,
            action ∈ actions sampleReport
            ∧ node action = RunTask tgt
            ∧ result (readStatus sampleWorld (lit "/work") (parseTarget tgt)) = inr (out, err)
            ∧ stdout r = (if bool_decide (trim out = []) then None else Some out)
            ∧ stderr r = (if bool_decide (trim err = []) then None else Some err)
            ∧ (is_Some (stdout r) ↔ ∃ c, c ∈ out ∧ isWhiteSpace c = false)
            ∧ (is_Some (stderr r) ↔ ∃ c, c ∈ err ∧ isWhiteSpace c = false)
            ∧ hasStdout r = bool_decide (is_Some (stdout r))
            ∧ hasStderr r = bool_decide (is_Some (stderr r))) sampleResults.
Proof.
  apply (output_fields_presence sampleWorld (lit "/work") (actions sampleReport)).
  vm_compute. reflexivity.
Defined.

(** ** Target re-serialization *)

Lemma displayTarget_no_colon p : 58%N ∉ p → displayTarget p = p ++ lit ":unknown".
Proof. intros Hp. unfold displayTarget, parseTarget. by rewrite split_no_sep. Qed.

Lemma displayTarget_two p q :
  58%N ∉ p → 58%N ∉ q → displayTarget (p ++ lit ":" ++ q) = p ++ lit ":" ++ q.
Proof.
  intros Hp Hq. unfold displayTarget, parseTarget.
  change (p ++ lit ":" ++ q) with (p ++ 58%N :: q).
  by rewrite split_app, split_no_sep.
Qed.

Lemma displayTarget_more p q rest :
  58%N ∉ p → 58%N ∉ q →
  displayTarget (p ++ lit ":" ++ q ++ lit ":" ++ rest) = p ++ lit ":" ++ q.
Proof.
  intros Hp Hq. unfold displayTarget, parseTarget.
  change (p ++ lit ":" ++ q ++ lit ":" ++ rest) with (p ++ 58%N :: (q ++ 58%N :: rest)).
  by rewrite !split_app.
Qed.

Lemma renderGroup_groupNames action r out err :
  groupNames (trace (renderGroup action r out err)) = [bold (target r)].
Proof.
  rewrite renderGroup_spec. cbn [trace fst]. unfold groupNames.
  by destruct (command r), (hasStdout r), (hasStderr r).
Qed.

Lemma addDetail_detailHeadings r :
  detailHeadings (trace (addDetail r)) = [lit "Task: " ++ target r].
Proof.
  rewrite addDetail_spec. cbn [trace fst]. unfold detailHeadings.
  by destruct (truthy (command r)), (hasStdout r), (hasStderr r).
Qed.

(** C10: the target of a record is the parsed project, a colon and the
    parsed task, whatever the action's own target string was: a target
    without a colon gains the suffix ":unknown" ("proj" becomes
    "proj:unknown"), a target with two segments is kept, and of a target
    with more segments only the first two remain ("a:b:c" becomes "a:b").
    This re-joined string is what the console group, the first cell of
    the table row and the detail heading show. *)
Theorem target_reserialized (action : Action) (p q rest out err : jsstring) :
  58%N ∉ p → 58%N ∉ q →
  (∀ tgt, target (taskResultOf action tgt out err)
          = project (parseTarget tgt) ++ lit ":" ++ task (parseTarget tgt))
  ∧ target (taskResultOf action p out err) = p ++ lit ":unknown"
  ∧ target (taskResultOf action (p ++ lit ":" ++ q) out err) = p ++ lit ":" ++ q
  ∧ target (taskResultOf action (p ++ lit ":" ++ q ++ lit ":" ++ rest) out err)
    = p ++ lit ":" ++ q
  ∧ target (taskResultOf action (lit "proj") out err) = lit "proj:unknown"
  ∧ target (taskResultOf action (lit "a:b:c") out err) = lit "a:b"
  ∧ (∀ tgt,
       groupNames (trace (renderGroup action (taskResultOf action tgt out err) out err))
       = [bold (displayTarget tgt)]
       ∧ data <$> head (tableRow (taskResultOf action tgt out err))
         = Some (displayTarget tgt)
       ∧ detailHeadings (trace (addDetail (taskResultOf action tgt out err)))
         = [lit "Task: " ++ displayTarget tgt]).
Proof.
  intros Hp Hq. split; [done|].
  split; [by apply displayTarget_no_colon|].
  split; [by apply displayTarget_two|].
  split; [by apply displayTarget_more|].
  split; [reflexivity|]. split; [reflexivity|].
  intros tgt. split; [apply renderGroup_groupNames|].
  split; [reflexivity | apply addDetail_detailHeadings].
Qed.

Lemma target_reserialized_witness :
  target (taskResultOf sampleApp (lit "a:b:c") [] []) = lit "a:b"
  ∧ target (taskResultOf sampleApp (lit "a") [] []) = lit "a:unknown".
Proof.
  pose proof (target_reserialized sampleApp (lit "a") (lit "b") (lit "c") [] []) as H.
  destruct H as (_ & H1 & _ & H3 & _).
  - apply (bool_decide_unpack _). vm_compute. reflexivity.
  - apply (bool_decide_unpack _). vm_compute. reflexivity.
  - split; [exact H3 | exact H1].
Defined.

(** ** Order of presentation *)

Lemma omap_emitsOnly {A B} (f : Event → option B) (P : Event → bool) (m : M A) :
  (∀ ev, P ev = true → f ev = None) → emitsOnly P m → omap f (trace m) = [].
Proof. intros H Hm. apply omap_none. by eapply Forall_impl. Qed.

Lemma results_targets w root acts rs :
  Forall2 (resultOfAction w root) (List.filter isRunTask acts) rs →
  target <$> rs = displayTarget <$> omap runTaskTarget acts.
Proof.
  revert rs. induction acts as [|action rest IH]; intros rs; cbn [List.filter].
  - by intros ->%Forall2_nil_inv_l.
  - cbn [omap list_omap]. fold (omap runTaskTarget rest).
    destruct (node action) as [tgt|other] eqn:E.
    + replace (isRunTask action) with true by (unfold isRunTask; by rewrite E).
      replace (runTaskTarget action) with (Some tgt)
        by (unfold runTaskTarget; by rewrite E).
      intros (r & rs' & (tgt' & out & err & Hn & _ & ->) & H & ->)%Forall2_cons_inv_l.
      rewrite E in Hn. injection Hn as <-.
      rewrite !fmap_cons. f_equal. by apply IH.
    + replace (isRunTask action) with false by (unfold isRunTask; by rewrite E).
      replace (runTaskTarget action) with (@None jsstring)
        by (unfold runTaskTarget; by rewrite E).
      apply IH.
Qed.

Lemma results_statuses w root acts rs :
  Forall2 (resultOfAction w root) acts rs → tr_status <$> rs = status <$> acts.
Proof.
  induction 1 as [|action r acts rs (tgt & out & err & _ & _ & ->) _ IH]; [done|].
  rewrite !fmap_cons. by f_equal.
Qed.

(** A loop that completes opened one console group per record, in the order
    of the records. *)
Lemma forActions_groupNames w root acts rs :
  result (forActions w root acts []) = inr rs →
  groupNames (trace (forActions w root acts [])) = bold <$> (target <$> rs).
Proof.
  revert rs. induction acts as [|action rest IH]; intros rs.
  - simpl. by intros [= <-].
  - destruct (node action) as [tgt|other] eqn:E.
    + rewrite (forActions_run _ _ _ _ _ E).
      destruct (result (readStatus w root (parseTarget tgt))) as [e|[out err]] eqn:Hlogs;
        [done|].
      cbn [trace result fst snd].
      destruct (result (forActions w root rest [])) as [e|rs'] eqn:Hrest; [done|].
      intros [= <-]. unfold groupNames in *. rewrite !omap_app.
      rewrite (omap_emitsOnly groupName isLogAccess) by (by intros [] || apply readStatus_emits).
      rewrite (renderGroup_groupNames action), (IH rs') by done.
      by rewrite !fmap_cons.
    + rewrite forActions_other by (unfold isRunTask; by rewrite E). apply IH.
Qed.

Lemma buildSummary_trace w rs :
  trace (buildSummary w rs)
  = SummaryAddTable (tableHeader :: (tableRow <$> rs))
      :: SummaryAddBreak :: trace (addDetails rs) ++ [SummaryWrite].
Proof. by rewrite buildSummary_spec, addDetails_spec. Qed.

Lemma addDetails_detailHeadings rs :
  detailHeadings (trace (addDetails rs)) = (λ r, lit "Task: " ++ target r) <$> rs.
Proof.
  induction rs as [|r rs IH]; [done|].
  cbn [addDetails]. rewrite trace_bind.
  replace (result (addDetail r)) with (@inr Error unit tt) by (by rewrite addDetail_spec).
  unfold detailHeadings in *. rewrite omap_app, IH.
  fold (detailHeadings (trace (addDetail r))). by rewrite addDetail_detailHeadings.
Qed.

Lemma addDetails_no_table rs : summaryTables (trace (addDetails rs)) = [].
Proof.
  induction rs as [|r rs IH]; [done|].
  cbn [addDetails]. rewrite trace_bind.
  replace (result (addDetail r)) with (@inr Error unit tt) by (by rewrite addDetail_spec).
  unfold summaryTables in *. rewrite omap_app, IH, app_nil_r.
  rewrite addDetail_spec. cbn [trace fst].
  by destruct (truthy (command r)), (hasStdout r), (hasStderr r).
Qed.

Lemma length_pos_iff {A} (l : list A) : bool_decide (0 < length l) = true ↔ l ≠ [].
Proof.
  rewrite bool_decide_eq_true. destruct l; simpl; split; (done || lia).
Qed.

Lemma initSummary_no_table : omap tableOf (trace initSummary) = [].
Proof. reflexivity. Qed.

Lemma initSummary_no_detail : omap detailHeading (trace initSummary) = [].
Proof. reflexivity. Qed.

(** Each row shows its record: target, emoji and status, command or dash,
    and the streams with output. *)
Lemma tableRow_data r :
  data <$> tableRow r
  = [ target r;
      getStatusEmoji (tr_status r) ++ lit " " ++ tr_status r;
      match command r with Some (c :: cs) => c :: cs | _ => lit "-" end;
      match hasStdout r, hasStderr r with
      | true, true => emoji_outbox ++ lit " stdout, " ++ emoji_inbox ++ lit " stderr"
      | true, false => emoji_outbox ++ lit " stdout"
      | false, true => emoji_inbox ++ lit " stderr"
      | false, false => lit "-"
      end ].
Proof.
  unfold tableRow. cbn [fmap list_fmap data]. f_equal. f_equal. f_equal.
  - by destruct (command r) as [[|c cs]|].
  - f_equal. by destruct (hasStdout r), (hasStderr r).
Qed.

(** C5: when the report was loaded and the loop over its actions
    completed, there is exactly one record per task-execution action, the
    records are in the order of those actions (targets and statuses
    alike), and the console groups of the whole run are those of the
    records in the same order, each named by the target of its record.
    When the summary is built it has one table: the header row "Task",
    "Status", "Command", "Outputs", followed by one row per record in that
    order, the i-th row showing the target of the i-th record, its emoji
    and status, its command and its streams; and the level-3 headings of
    the summary are "Task: " and the target of each record, in that
    order. *)
Theorem order_preserved (w : World) (report : RunReport) (rs : list TaskResult) :
  result (loadReport w (cwd w)) = inr (Some report) →
  result (forActions w (cwd w) (actions report) []) = inr rs →
  Forall2 (resultOfAction w (cwd w)) (List.filter isRunTask (actions report)) rs
  ∧ length rs = length (List.filter isRunTask (actions report))
  ∧ target <$> rs = displayTarget <$> omap runTaskTarget (actions report)
  ∧ tr_status <$> rs = status <$> List.filter isRunTask (actions report)
  ∧ groupNames (trace (main w)) = bold <$> (target <$> rs)
  ∧ (isGitHubActions w = true → rs ≠ [] →
     summaryTables (trace (main w)) = [tableHeader :: (tableRow <$> rs)]
     ∧ (∃ rows,
          summaryTables (trace (main w)) = [tableHeader :: rows]
          ∧ data <$> tableHeader
            = [lit "Task"; lit "Status"; lit "Command"; lit "Outputs"]
          ∧ length rows = length rs
          ∧ ∀ i r, rs !! i = Some r →
              ∃ row, rows !! i = Some row
                ∧ data <$> row
                  = [ target r;
                      getStatusEmoji (tr_status r) ++ lit " " ++ tr_status r;
                      match command r with Some (c :: cs) => c :: cs | _ => lit "-" end;
                      match hasStdout r, hasStderr r with
                      | true, true =>
                          emoji_outbox ++ lit " stdout, " ++ emoji_inbox ++ lit " stderr"
                      | true, false => emoji_outbox ++ lit " stdout"
                      | false, true => emoji_inbox ++ lit " stderr"
                      | false, false => lit "-"
                      end ])
     ∧ detailHeadings (trace (main w)) = (λ r, lit "Task: " ++ target r) <$> rs).
Proof.
  intros Hload Hloop. pose proof (forActions_results _ _ _ _ Hloop) as Hrs.
  split; [done|]. split; [symmetry; by eapply Forall2_length|].
  split; [by eapply results_targets|]. split; [by eapply results_statuses|].
  rewrite (main_completed _ _ _ Hload Hloop). cbn [trace fst].
  split.
  - unfold groupNames. rewrite !omap_app.
    rewrite (omap_emitsOnly groupName isLocatorEvent)
      by (by intros [] || apply loadReport_emits).
    rewrite (omap_none groupName (if isGitHubActions w then _ else _))
      by (destruct (isGitHubActions w); by repeat constructor).
    rewrite (omap_none groupName (if _ && _ then _ else _)).
    + rewrite app_nil_r. by apply forActions_groupNames.
    + destruct (_ && _); [|constructor].
      eapply emitsOnly_Forall; [apply buildSummary_emits | by intros []].
  - intros Hflag Hne. rewrite Hflag.
    apply length_pos_iff in Hne. rewrite Hne. cbn [andb].
    unfold summaryTables, detailHeadings. rewrite !omap_app.
    rewrite (omap_emitsOnly tableOf isLocatorEvent),
            (omap_emitsOnly detailHeading isLocatorEvent)
      by (by intros [] || apply loadReport_emits).
    rewrite initSummary_no_table, initSummary_no_detail.
    rewrite (omap_emitsOnly tableOf isLoopEvent),
            (omap_emitsOnly detailHeading isLoopEvent)
      by (by intros [] || apply forActions_emits).
    rewrite buildSummary_trace. cbn [app omap list_omap tableOf detailHeading trace fst].
    rewrite !omap_app.
    pose proof (addDetails_no_table rs) as Ht.
    pose proof (addDetails_detailHeadings rs) as Hh.
    unfold summaryTables, detailHeadings in Ht, Hh. rewrite Ht, Hh.
    split; [done|]. split.
    + exists (tableRow <$> rs). split; [done|]. split; [reflexivity|].
      split; [apply length_fmap|].
      intros i r Hi. exists (tableRow r). split; [|apply tableRow_data].
      by rewrite list_lookup_fmap, Hi.
    + cbn [omap list_omap detailHeading]. by rewrite app_nil_r.
Qed.

Lemma order_preserved_witness :
  groupNames (trace (main sampleWorld))
  = [bold (lit "libs/ui:test"); bold (lit "app:unknown")]
  ∧ (λ rows : list (list Cell), (λ row : list Cell, data <$> row) <$> rows)
      <$> summaryTables (trace (main sampleWorld))
    = [ [ [lit "Task"; lit "Status"; lit "Command"; lit "Outputs"];
          [ lit "libs/ui:test"; utf16 9989 ++ lit " passed"; lit "vitest run";
            utf16 128228 ++ lit " stdout" ];
          [ lit "app:unknown"; utf16 10067 ++ lit " exploded"; lit "-"; lit "-" ] ] ]
  ∧ detailHeadings (trace (main sampleWorld))
    = [lit "Task: libs/ui:test"; lit "Task: app:unknown"].
Proof.
  pose proof (order_preserved sampleWorld sampleReport sampleResults) as H.
  destruct H as (_ & _ & _ & _ & Hg & Hs).
  - vm_compute. reflexivity.
  - vm_compute. reflexivity.
  - split; [exact Hg|].
    destruct Hs as (Ht & _ & Hh); [vm_compute; reflexivity | discriminate |].
    split; [|exact Hh]. rewrite Ht. vm_compute. reflexivity.
Defined.

(** ** Publishing the summary *)

Lemma summaryWrites_app t1 t2 : summaryWrites (t1 ++ t2) = summaryWrites t1 + summaryWrites t2.
Proof. unfold summaryWrites. by rewrite List.filter_app, length_app. Qed.

Lemma summaryWrites_emitsOnly {A} (P : Event → bool) (m : M A) :
  (∀ ev, P ev = true → isSummaryWrite ev = false) →
  emitsOnly P m → summaryWrites (trace m) = 0.
Proof.
  intros H Hm. unfold summaryWrites. rewrite filter_none; [done|].
  by eapply Forall_impl.
Qed.

Lemma addDetail_no_write r : summaryWrites (trace (addDetail r)) = 0.
Proof.
  rewrite addDetail_spec. cbn [trace fst].
  by destruct (truthy (command r)), (hasStdout r), (hasStderr r).
Qed.

Lemma addDetails_no_write rs : summaryWrites (trace (addDetails rs)) = 0.
Proof.
  induction rs as [|r rs IH]; [done|].
  cbn [addDetails]. rewrite trace_bind.
  replace (result (addDetail r)) with (@inr Error unit tt) by (by rewrite addDetail_spec).
  by rewrite summaryWrites_app, addDetail_no_write, IH.
Qed.

(** Building the summary publishes it once, at the very end. *)
Lemma buildSummary_writes w rs : summaryWrites (trace (buildSummary w rs)) = 1.
Proof.
  rewrite buildSummary_trace.
  change (summaryWrites (trace (addDetails rs) ++ [SummaryWrite]) = 1).
  by rewrite summaryWrites_app, addDetails_no_write.
Qed.

(** The number of publications of a run, by how far the run got. *)
Lemma summaryWrites_main w :
  summaryWrites (trace (main w))
  = match result (loadReport w (cwd w)) with
    | inr (Some report) =>
        match result (forActions w (cwd w) (actions report) []) with
        | inr rs => if isGitHubActions w && bool_decide (0 < length rs) then 1 else 0
        | inl _ => 0
        end
    | _ => 0
    end.
Proof.
  assert (Hl : summaryWrites (trace (loadReport w (cwd w))) = 0)
    by (apply (summaryWrites_emitsOnly isLocatorEvent);
        [by intros [] | apply loadReport_emits]).
  assert (Hi : summaryWrites (if isGitHubActions w then trace initSummary else []) = 0)
    by (by destruct (isGitHubActions w)).
  destruct (result (loadReport w (cwd w))) as [e|[report|]] eqn:Hload.
  - by rewrite (main_load_error _ _ Hload).
  - assert (Hf : summaryWrites (trace (forActions w (cwd w) (actions report) [])) = 0)
      by (apply (summaryWrites_emitsOnly isLoopEvent);
          [by intros [] | apply forActions_emits]).
    destruct (result (forActions w (cwd w) (actions report) [])) as [e|rs] eqn:Hloop.
    + rewrite (main_loop_error _ _ _ Hload Hloop). cbn [trace fst].
      by rewrite !summaryWrites_app, Hl, Hi, Hf.
    + rewrite (main_completed _ _ _ Hload Hloop). cbn [trace fst].
      rewrite !summaryWrites_app, Hl, Hi, Hf.
      destruct (_ && _); [by rewrite buildSummary_writes | done].
  - rewrite (main_no_report _ Hload). cbn [trace fst].
    by rewrite summaryWrites_app, Hl.
Qed.

(** A report without task-execution actions makes the loop do nothing. *)
Lemma forActions_no_tasks w root acts :
  Forall (λ action, isRunTask action = false) acts →
  forActions w root acts [] = ([], inr []).
Proof.
  induction 1 as [|action rest Ha _ IH]; [done|]. by rewrite forActions_other.
Qed.

(** C4: a run publishes the summary at most once; it publishes it exactly
    once precisely when the CI-platform flag is set, the report was
    loaded, and the loop over its actions completed with at least one
    record.  For a report without task-execution actions nothing is
    published, flag or not, and no console group is opened, no line
    logged and no group closed. *)
Theorem summary_published_once (w : World) :
  summaryWrites (trace (main w)) ≤ 1
  ∧ (summaryWrites (trace (main w)) = 1 ↔
       isGitHubActions w = true
       ∧ ∃ report rs,
           result (loadReport w (cwd w)) = inr (Some report)
           ∧ result (forActions w (cwd w) (actions report) []) = inr rs
           ∧ rs ≠ [])
  ∧ (∀ report,
       result (loadReport w (cwd w)) = inr (Some report) →
       Forall (λ action, isRunTask action = false) (actions report) →
       summaryWrites (trace (main w)) = 0
       ∧ Forall (λ ev, isConsoleEvent ev = false) (trace (main w))).
Proof.
  split; [|split].
  - rewrite summaryWrites_main. repeat case_match; lia.
  - rewrite summaryWrites_main. split.
    + destruct (result (loadReport w (cwd w))) as [e|[report|]]; [done| |done].
      destruct (result (forActions w (cwd w) (actions report) [])) as [e|rs] eqn:Hloop;
        [done|].
      destruct (isGitHubActions w); [|done].
      destruct (bool_decide (0 < length rs)) eqn:Hn; [|done].
      intros _. split; [done|]. exists report, rs.
      split; [done|]. split; [done|]. by apply length_pos_iff.
    + intros (-> & report & rs & -> & -> & Hne).
      apply length_pos_iff in Hne. by rewrite Hne.
  - intros report Hload Hnone.
    pose proof (forActions_no_tasks w (cwd w) _ Hnone) as Hloop.
    split.
    + rewrite summaryWrites_main, Hload, Hloop. cbn [result snd length].
      by rewrite bool_decide_false, andb_false_r by lia.
    + rewrite (main_completed w report []) by (done || by rewrite Hloop).
      rewrite Hloop. cbn [trace fst length].
      rewrite bool_decide_false, andb_false_r by lia. rewrite !app_nil_r.
      apply Forall_app. split.
      * eapply emitsOnly_Forall; [apply loadReport_emits | by intros []].
      * destruct (isGitHubActions w); by repeat constructor.
Qed.

Lemma summary_published_once_witness : summaryWrites (trace (main sampleWorld)) = 1.
Proof.
  apply (proj1 (proj2 (summary_published_once sampleWorld))).
  split; [vm_compute; reflexivity|].
  exists sampleReport, sampleResults.
  split; [vm_compute; reflexivity|]. split; [vm_compute; reflexivity | discriminate].
Defined.

(** ** The top level *)

Lemma exitCode_app t t' :
  Forall (λ ev, isProcessExit ev = false) t → exitCode (t ++ t') = exitCode t'.
Proof. induction 1 as [|ev t Hev _ IH]; [done|]. by destruct ev. Qed.

Lemma exitCode_none t : Forall (λ ev, isProcessExit ev = false) t → exitCode t = 0%Z.
Proof. intros H. rewrite <- (app_nil_r t). by rewrite exitCode_app. Qed.

(** [main] never ends the process itself, and never writes to the error
    stream. *)
Lemma main_no_exit w :
  Forall (λ ev, isProcessExit ev = false ∧ ∀ e, ev ≠ ConsoleError e) (trace (main w)).
Proof.
  assert (H : emitsOnly
                (λ ev, isLocatorEvent ev || isLoopEvent ev || isSummaryEvent ev
                       || match ev with CoreWarning _ => true | _ => false end)
                (main w)).
  { rewrite main_unfold. apply emitsOnly_bind; [|intros [report|]].
    - eapply emitsOnly_impl; [|apply loadReport_emits]. by intros [].
    - apply emitsOnly_bind; [|intros _].
      { apply emitsOnly_when. rewrite initSummary_spec. by repeat constructor. }
      apply emitsOnly_bind; [|intros rs].
      { eapply emitsOnly_impl; [|apply forActions_emits]. by intros []. }
      apply emitsOnly_when.
      eapply emitsOnly_impl; [|apply buildSummary_emits]. by intros [].
    - by apply emitsOnly_emit. }
  eapply emitsOnly_Forall; [exact H|]. by intros [].
Qed.

(** C8: whatever the workspace holds, the process ends with status 0.  An
    error that escapes [main] is written to the error stream and followed
    by an exit with status 0, and nothing else follows; [main] itself
    never exits.  A first candidate that exists but does not hold a report
    makes [main] fail with a parse error, which ends that way.  When no
    candidate exists, [main] issues the warning and returns normally, and
    nothing is written to the error stream. *)
Theorem top_level_policy (w : World) :
  exitCode (program w) = 0%Z
  ∧ Forall (λ ev, isProcessExit ev = false) (trace (main w))
  ∧ (∀ e, result (main w) = inl e →
       program w = trace (main w) ++ [ConsoleError e; ProcessExit 0])
  ∧ (result (main w) = inr tt → program w = trace (main w))
  ∧ (∀ content,
       fs w !! reportPath w (cwd w) (lit "ciReport.json") = Some (RegularFile content) →
       decodeReport w content = None →
       result (main w) = inl (ParseError (reportPath w (cwd w) (lit "ciReport.json")))
       ∧ last (program w) = Some (ProcessExit 0))
  ∧ (fs w !! reportPath w (cwd w) (lit "ciReport.json") = None →
     fs w !! reportPath w (cwd w) (lit "runReport.json") = None →
     result (main w) = inr tt
     ∧ program w = trace (loadReport w (cwd w)) ++ [CoreWarning noReportWarning]).
Proof.
  assert (Hno : Forall (λ ev, isProcessExit ev = false) (trace (main w))).
  { eapply Forall_impl; [apply main_no_exit|]. by intros ev [? _]. }
  assert (Herr : ∀ e, result (main w) = inl e →
            program w = trace (main w) ++ [ConsoleError e; ProcessExit 0]).
  { intros e He. unfold program. destruct (main w) as [t [e'|[]]]; [|done].
    by injection He as ->. }
  assert (Hok : result (main w) = inr tt → program w = trace (main w)).
  { intros He. unfold program. by destruct (main w) as [t [e'|[]]]. }
  split; [|split; [done|split; [done|split; [done|split]]]].
  - destruct (result (main w)) as [e|[]] eqn:Hres.
    + rewrite (Herr e eq_refl). by rewrite exitCode_app.
    + rewrite (Hok eq_refl). by apply exitCode_none.
  - intros content Hfs Hdec.
    assert (Hmain : result (main w)
              = inl (ParseError (reportPath w (cwd w) (lit "ciReport.json")))).
    { rewrite (main_load_error w (ParseError (reportPath w (cwd w) (lit "ciReport.json"))));
        [done|].
      rewrite (loadReport_first _ _ _ Hfs). by rewrite Hdec. }
    split; [done|]. rewrite (Herr _ Hmain).
    by rewrite last_app.
  - intros H1 H2.
    assert (Hload : result (loadReport w (cwd w)) = inr None)
      by (by rewrite loadReport_none).
    rewrite (Hok); rewrite (main_no_report _ Hload); done.
Qed.

Lemma top_level_policy_witness :
  result (main brokenWorld) = inl (ParseError (lit "/work/.moon/cache/ciReport.json"))
  ∧ last (program brokenWorld) = Some (ProcessExit 0).
Proof.
  apply (proj1 (proj2 (proj2 (proj2 (proj2 (top_level_policy brokenWorld)))))
           (lit "{oops")).
  - vm_compute. reflexivity.
  - vm_compute. reflexivity.
Defined.

(** * Further properties of the code *)

(** ** Commands *)

Lemma commandOf_ops_skip pre rest :
  Forall (λ op, ∃ ty, meta op = OtherMeta ty) pre →
  commandOf_ops (pre ++ rest) = commandOf_ops rest.
Proof. induction 1 as [|op pre [ty Hop] _ IH]; [done|]. simpl. by rewrite Hop. Qed.

(** The command of an action is the [command] of its first task-execution
    operation, also when that one has no command and a later one has; an
    action without such an operation has no command. *)
Theorem commandOf_first_execution (action : Action) (pre post : list Operation)
    (op : Operation) (c : option jsstring) :
  Forall (λ o, ∃ ty, meta o = OtherMeta ty) pre →
  (operations action = pre ++ op :: post → meta op = TaskExecution c →
   commandOf action = c)
  ∧ (operations action = pre → commandOf action = None).
Proof.
  intros Hpre. unfold commandOf. split.
  - intros -> Hop. rewrite commandOf_ops_skip by done. simpl. by rewrite Hop.
  - intros ->. rewrite <- (app_nil_r pre). by rewrite commandOf_ops_skip.
Qed.

Lemma commandOf_first_execution_witness :
  commandOf {| node := RunTask (lit "a:b"); status := lit "passed";
               operations := [ {| meta := OtherMeta (lit "hash-generation") |};
                               {| meta := TaskExecution None |};
                               {| meta := TaskExecution (Some (lit "tsc")) |} ] |}
  = None.
Proof.
  refine (proj1 (commandOf_first_execution _
                   [ {| meta := OtherMeta (lit "hash-generation") |} ]
                   [ {| meta := TaskExecution (Some (lit "tsc")) |} ]
                   {| meta := TaskExecution None |} None _) _ _).
  - repeat constructor. by eexists.
  - reflexivity.
  - reflexivity.
Defined.

(** A command that [commandOf] returns is the command of a task-execution
    operation of the action, and no task-execution operation comes before
    it. *)
Theorem commandOf_some_inv (action : Action) (c : jsstring) :
  commandOf action = Some c →
  ∃ pre op post,
    operations action = pre ++ op :: post
    ∧ meta op = TaskExecution (Some c)
    ∧ Forall (λ o, ∃ ty, meta o = OtherMeta ty) pre.
Proof.
  unfold commandOf. induction (operations action) as [|op ops IH]; [done|].
  simpl. destruct (meta op) as [c'|ty] eqn:Hop.
  - intros ->. by exists [], op, ops.
  - intros (pre & op' & post & -> & Hop' & Hpre)%IH.
    exists (op :: pre), op', post. split; [done|]. split; [done|].
    constructor; [by exists ty | done].
Qed.

Lemma commandOf_some_inv_witness :
  ∃ pre op post,
    operations sampleTest = pre ++ op :: post
    ∧ meta op = TaskExecution (Some (lit "vitest run"))
    ∧ Forall (λ o, ∃ ty, meta o = OtherMeta ty) pre.
Proof. apply (commandOf_some_inv sampleTest (lit "vitest run")). reflexivity. Defined.

(** ** Sanitizing *)

(** Sanitizing changes a project name exactly when the name has a "/";
    sanitizing twice is sanitizing once, and sanitizing goes through
    concatenation. *)
Theorem sanitizeProjectName_fixed (p q : jsstring) :
  (sanitizeProjectName p = p ↔ 47%N ∉ p)
  ∧ sanitizeProjectName (sanitizeProjectName p) = sanitizeProjectName p
  ∧ sanitizeProjectName (p ++ q) = sanitizeProjectName p ++ sanitizeProjectName q.
Proof.
  assert (Hfix : ∀ s, 47%N ∉ s → sanitizeProjectName s = s).
  { intros s. unfold sanitizeProjectName, replaceAll.
    induction s as [|c s IH]; [done|].
    intros [Hc Hs]%not_elem_of_cons. rewrite fmap_cons, IH by done.
    by destruct (N.eqb_spec c 47). }
  split; [split|split].
  - intros H. rewrite <- H. apply sanitizeProjectName_no_slash.
  - apply Hfix.
  - apply Hfix, sanitizeProjectName_no_slash.
  - unfold sanitizeProjectName, replaceAll. apply fmap_app.
Qed.

(** ** Targets *)

Lemma split_segments sep s : Forall (λ seg, sep ∉ seg) (split sep s).
Proof.
  induction s as [|c s IH]; simpl.
  - repeat constructor. by intros ?%elem_of_nil.
  - destruct (N.eqb_spec c sep) as [->|Hc].
    + constructor; [by intros ?%elem_of_nil | done].
    + destruct (split sep s) as [|h t]; [repeat constructor|].
      * intros [?|?%elem_of_nil]%elem_of_cons; [congruence | done].
      * apply Forall_cons in IH as [Hh Ht]. constructor; [|done].
        intros [?|?]%elem_of_cons; [congruence | done].
Qed.

Lemma unknown_no_colon : 58%N ∉ lit "unknown".
Proof. apply (bool_decide_unpack _). vm_compute. reflexivity. Qed.

Lemma parseTarget_no_colon tgt :
  (58%N ∉ project (parseTarget tgt)) ∧ (58%N ∉ task (parseTarget tgt)).
Proof.
  pose proof (split_segments 58 tgt) as H. unfold parseTarget.
  rewrite Forall_lookup in H. simpl. split.
  - destruct (split 58 tgt !! 0%nat) as [h|] eqn:E; simpl;
      [by eapply H | apply unknown_no_colon].
  - destruct (split 58 tgt !! 1%nat) as [h|] eqn:E; simpl;
      [by eapply H | apply unknown_no_colon].
Qed.

(** Neither part of a parsed target holds a colon, whatever the target. *)
Theorem parseTarget_parts_colon_free (tgt : jsstring) :
  (58%N ∉ project (parseTarget tgt)) ∧ (58%N ∉ task (parseTarget tgt)).
Proof. apply parseTarget_no_colon. Qed.

(** Re-joining the parsed parts is idempotent, and it gives back the target
    exactly when the target is two colon-free segments around one colon. *)
Theorem displayTarget_idempotent (tgt : jsstring) :
  displayTarget (displayTarget tgt) = displayTarget tgt
  ∧ (displayTarget tgt = tgt ↔
       ∃ p q, (58%N ∉ p) ∧ (58%N ∉ q) ∧ tgt = p ++ lit ":" ++ q).
Proof.
  destruct (parseTarget_no_colon tgt) as [Hp Hq]. split; [|split].
  - unfold displayTarget at 2 3. by apply displayTarget_two.
  - intros H. exists (project (parseTarget tgt)), (task (parseTarget tgt)).
    split; [done|]. split; [done|]. by rewrite <- H at 1.
  - intros (p & q & Hp' & Hq' & ->). by apply displayTarget_two.
Qed.

(** ** Reading logs *)

(** Two projects with the same sanitized name share one log directory: the
    resolver sees a project only through its sanitized name. *)
Theorem log_directory_shared (w : World) (root p p' t : jsstring) :
  sanitizeProjectName p = sanitizeProjectName p' →
  readStatus w root {| project := p; task := t |}
  = readStatus w root {| project := p'; task := t |}.
Proof. intros H. unfold readStatus, statusDir. simpl. by rewrite H. Qed.

Lemma log_directory_shared_witness :
  readStatus sampleWorld (lit "/work") {| project := lit "libs/ui"; task := lit "test" |}
  = readStatus sampleWorld (lit "/work") {| project := lit "libs-ui"; task := lit "test" |}.
Proof. apply log_directory_shared. reflexivity. Defined.

Lemma readStatus_failure_cases w root id e :
  result (readStatus w root id) = inl e →
  e = ReadError (statusDir root id ++ lit "/stdout.log")
  ∨ e = ReadError (statusDir root id ++ lit "/stderr.log").
Proof.
  rewrite readStatus_bind, !(readLog_cases w).
  destruct (fs w !! (statusDir root id ++ lit "/stdout.log")) as [[out|]|];
    destruct (fs w !! (statusDir root id ++ lit "/stderr.log")) as [[err|]|];
    cbn [bind result trace fst snd ret raise app]; intros [= <-]; auto.
Qed.

(** The resolver fails only on a log that exists and cannot be read, with
    the read error of that path; when it is the stdout log, the stderr log
    is not even looked for. *)
Theorem readStatus_failure (w : World) (root : jsstring) (id : TargetIdentity)
    (e : Error) :
  result (readStatus w root id) = inl e →
  (e = ReadError (statusDir root id ++ lit "/stdout.log")
   ∧ fs w !! (statusDir root id ++ lit "/stdout.log") = Some Unreadable
   ∧ trace (readStatus w root id)
     = [ FsStat (statusDir root id ++ lit "/stdout.log");
         FsReadFile (statusDir root id ++ lit "/stdout.log") ])
  ∨ (e = ReadError (statusDir root id ++ lit "/stderr.log")
     ∧ fs w !! (statusDir root id ++ lit "/stderr.log") = Some Unreadable
     ∧ fs w !! (statusDir root id ++ lit "/stdout.log") ≠ Some Unreadable).
Proof.
  rewrite readStatus_bind, !(readLog_cases w).
  destruct (fs w !! (statusDir root id ++ lit "/stdout.log")) as [[out|]|];
    destruct (fs w !! (statusDir root id ++ lit "/stderr.log")) as [[err|]|];
    cbn [bind result trace fst snd ret raise app]; intros [= <-]; auto.
Qed.

Lemma readStatus_failure_witness :
  result (readStatus lockedWorld (lit "/work")
            {| project := lit "libs/ui"; task := lit "test" |})
  = inl (ReadError (lit "/work/.moon/cache/states/libs-ui/test/stderr.log")).
Proof.
  destruct (readStatus_failure lockedWorld (lit "/work")
              {| project := lit "libs/ui"; task := lit "test" |}
              (ReadError (lit "/work/.moon/cache/states/libs-ui/test/stderr.log")))
    as [(_ & H & _)|(_ & H & _)].
  - vm_compute. reflexivity.
  - vm_compute. reflexivity.
  - vm_compute. reflexivity.
Defined.

Lemma readStatus_ok w root id :
  map_Forall (λ _ n, isRegular n = true) (fs w) →
  ∃ out err, result (readStatus w root id) = inr (out, err).
Proof.
  intros Hfs. rewrite readStatus_bind, !(readLog_cases w).
  destruct (fs w !! (statusDir root id ++ lit "/stdout.log")) as [[out|]|] eqn:E1;
    [|by apply Hfs in E1|];
    (destruct (fs w !! (statusDir root id ++ lit "/stderr.log")) as [[err|]|] eqn:E2;
      [|by apply Hfs in E2|]); by eexists _, _.
Qed.

Lemma forActions_ok w root acts :
  map_Forall (λ _ n, isRegular n = true) (fs w) →
  ∃ rs, result (forActions w root acts []) = inr rs.
Proof.
  intros Hfs. induction acts as [|action rest [rs IH]]; [by exists []|].
  destruct (node action) as [tgt|other] eqn:E.
  - rewrite (forActions_run _ _ _ _ _ E).
    destruct (readStatus_ok w root (parseTarget tgt) Hfs) as (out & err & ->).
    cbn [result snd]. rewrite IH. by eexists.
  - rewrite forActions_other by (unfold isRunTask; by rewrite E). by exists rs.
Qed.

Lemma loadReport_ok w root :
  holdsReport w (reportPath w root (lit "ciReport.json")) = true →
  (fs w !! reportPath w root (lit "ciReport.json") = None →
   holdsReport w (reportPath w root (lit "runReport.json")) = true) →
  ∃ report, result (loadReport w root) = inr report.
Proof.
  unfold holdsReport. intros H1 H2.
  destruct (fs w !! reportPath w root (lit "ciReport.json")) as [[c|]|] eqn:E1;
    [|done|].
  - rewrite (loadReport_first _ _ _ E1).
    apply bool_decide_eq_true in H1 as [r ->]. by eexists.
  - specialize (H2 eq_refl).
    destruct (fs w !! reportPath w root (lit "runReport.json")) as [[c|]|] eqn:E2;
      [|done|].
    + rewrite (loadReport_second _ _ _ E1 E2).
      apply bool_decide_eq_true in H2 as [r ->]. by eexists.
    + rewrite (loadReport_none _ _ E1 E2). by eexists.
Qed.

(** In a workspace where everything on disk is a readable file, where the
    first report candidate, if it exists, holds a report, where the second
    does when the first is missing, and where the platform accepts the
    summary, [main] returns normally: nothing reaches the error stream and
    the process is not ended early. *)
Theorem main_returns_normally (w : World) :
  map_Forall (λ _ n, isRegular n = true) (fs w) →
  holdsReport w (reportPath w (cwd w) (lit "ciReport.json")) = true →
  (fs w !! reportPath w (cwd w) (lit "ciReport.json") = None →
   holdsReport w (reportPath w (cwd w) (lit "runReport.json")) = true) →
  summaryWritable w = true →
  result (main w) = inr tt
  ∧ program w = trace (main w)
  ∧ Forall (λ ev, isProcessExit ev = false ∧ ∀ e, ev ≠ ConsoleError e) (program w).
Proof.
  intros Hfs H1 H2 Hw.
  assert (Hres : result (main w) = inr tt).
  { destruct (loadReport_ok w (cwd w) H1 H2) as [[report|] Hload].
    - destruct (forActions_ok w (cwd w) (actions report) Hfs) as [rs Hloop].
      rewrite (main_completed _ _ _ Hload Hloop). cbn [result snd].
      destruct (_ && _); [|done]. by rewrite buildSummary_spec, Hw.
    - by rewrite (main_no_report _ Hload). }
  assert (Hprog : program w = trace (main w)).
  { unfold program. by destruct (main w) as [t [e|[]]]. }
  split; [done|]. split; [done|]. rewrite Hprog. apply main_no_exit.
Qed.

Lemma main_returns_normally_witness : result (main sampleWorld) = inr tt.
Proof.
  refine (proj1 (main_returns_normally sampleWorld _ _ _ _)).
  - apply (bool_decide_unpack _). vm_compute. reflexivity.
  - vm_compute. reflexivity.
  - intros H. vm_compute in H. discriminate H.
  - reflexivity.
Defined.

(** ** The loop on failure *)

Lemma forActions_app w root pre post :
  forActions w root (pre ++ post) []
  = match result (forActions w root pre []) with
    | inl e => (trace (forActions w root pre []), inl e)
    | inr rs =>
        (trace (forActions w root pre []) ++ trace (forActions w root post []),
         match result (forActions w root post []) with
         | inr rs' => inr (rs ++ rs')
         | inl e => inl e
         end)
    end.
Proof.
  induction pre as [|action pre IH].
  - simpl. by destruct (forActions w root post []) as [t [e|rs]].
  - rewrite <- app_comm_cons. destruct (node action) as [tgt|other] eqn:E.
    + rewrite !(forActions_run _ _ _ _ _ E).
      destruct (result (readStatus w root (parseTarget tgt))) as [e|[out err]]; [done|].
      rewrite IH. cbn [trace result fst snd].
      destruct (result (forActions w root pre [])) as [e|rs]; cbn [trace result fst snd].
      * done.
      * rewrite !app_assoc.
        by destruct (result (forActions w root post [])) as [e|rs'].
    + rewrite !forActions_other by (unfold isRunTask; by rewrite E). apply IH.
Qed.

(** When reading the logs of an action fails, the loop ends there with that
    error: the actions after it play no part, and the groups opened are
    those of the records built before it. *)
Theorem forActions_stops_at_failure (w : World) (root : jsstring)
    (pre post : list Action) (action : Action) (tgt : jsstring)
    (rs : list TaskResult) (e : Error) :
  result (forActions w root pre []) = inr rs →
  node action = RunTask tgt →
  result (readStatus w root (parseTarget tgt)) = inl e →
  forActions w root (pre ++ action :: post) []
  = (trace (forActions w root pre []) ++ trace (readStatus w root (parseTarget tgt)),
     inl e)
  ∧ groupNames (trace (forActions w root (pre ++ action :: post) []))
    = bold <$> (target <$> rs).
Proof.
  intros Hpre Hnode Hlogs.
  assert (H : forActions w root (pre ++ action :: post) []
              = (trace (forActions w root pre [])
                   ++ trace (readStatus w root (parseTarget tgt)), inl e)).
  { rewrite forActions_app, Hpre, (forActions_run _ _ _ _ _ Hnode), Hlogs. done. }
  split; [done|]. rewrite H. cbn [trace fst]. unfold groupNames. rewrite omap_app.
  rewrite (omap_emitsOnly groupName isLogAccess (readStatus w root (parseTarget tgt)))
    by (by intros [] || apply readStatus_emits).
  rewrite app_nil_r. by apply forActions_groupNames.
Qed.

Lemma forActions_stops_at_failure_witness :
  result (forActions lockedWorld (lit "/work") (actions sampleReport) [])
  = inl (ReadError (lit "/work/.moon/cache/states/libs-ui/test/stderr.log"))
  ∧ groupNames (trace (forActions lockedWorld (lit "/work") (actions sampleReport) []))
    = [].
Proof.
  destruct (forActions_stops_at_failure lockedWorld (lit "/work")
              [sampleSync] [sampleApp] sampleTest (lit "libs/ui:test") []
              (ReadError (lit "/work/.moon/cache/states/libs-ui/test/stderr.log")))
    as [H1 H2].
  - reflexivity.
  - reflexivity.
  - vm_compute. reflexivity.
  - split; [|exact H2].
    change (actions sampleReport) with ([sampleSync] ++ sampleTest :: [sampleApp]).
    by rewrite H1.
Defined.

(** ** Console groups *)

Lemma grouping_app b t1 t2 b' :
  grouping b t1 = Some b' → grouping b (t1 ++ t2) = grouping b' t2.
Proof.
  revert b. induction t1 as [|ev t1 IH]; intros b; [by intros [= ->]|].
  destruct ev, b; simpl; try done; apply IH.
Qed.

(** Events that print nothing leave the grouping as it is. *)
Lemma grouping_silent b t :
  Forall (λ ev, isPrinted ev = false) t → grouping b t = Some b.
Proof. induction 1 as [|ev t Hev _ IH]; [done|]. by destruct ev. Qed.

(** Outside of every group, anything but a group command or [console.log]
    may come. *)
Lemma grouping_outside t :
  Forall (λ ev, isConsoleEvent ev = false) t → grouping false t = Some false.
Proof. induction 1 as [|ev t Hev _ IH]; [done|]. by destruct ev. Qed.

Lemma grouping_renderGroup action r out err :
  grouping false (trace (renderGroup action r out err)) = Some false.
Proof.
  rewrite renderGroup_spec. cbn [trace fst].
  by destruct (command r), (hasStdout r), (hasStderr r).
Qed.

Lemma readStatus_silent w root id :
  Forall (λ ev, isPrinted ev = false) (trace (readStatus w root id)).
Proof. eapply emitsOnly_Forall; [apply readStatus_emits | by intros []]. Qed.

Lemma grouping_forActions w root acts :
  grouping false (trace (forActions w root acts [])) = Some false.
Proof.
  induction acts as [|action rest IH]; [done|].
  destruct (node action) as [tgt|other] eqn:E.
  - rewrite (forActions_run _ _ _ _ _ E).
    destruct (result (readStatus w root (parseTarget tgt))) as [e|[out err]].
    + apply grouping_silent, readStatus_silent.
    + cbn [trace fst].
      rewrite (grouping_app _ _ _ false) by apply grouping_silent, readStatus_silent.
      by rewrite (grouping_app _ _ _ false) by apply grouping_renderGroup.
  - by rewrite forActions_other by (unfold isRunTask; by rewrite E).
Qed.

Lemma loadReport_quiet w root :
  Forall (λ ev, isConsoleEvent ev = false) (trace (loadReport w root)).
Proof. eapply emitsOnly_Forall; [apply loadReport_emits | by intros []]. Qed.

Lemma buildSummary_quiet w rs :
  Forall (λ ev, isConsoleEvent ev = false) (trace (buildSummary w rs)).
Proof. eapply emitsOnly_Forall; [apply buildSummary_emits | by intros []]. Qed.

Lemma initSummary_quiet w :
  Forall (λ ev, isConsoleEvent ev = false)
    (if isGitHubActions w then trace initSummary else []).
Proof. destruct (isGitHubActions w); by repeat constructor. Qed.

Lemma grouping_main w : grouping false (trace (main w)) = Some false.
Proof.
  pose proof (grouping_outside _ (loadReport_quiet w (cwd w))) as Hl.
  pose proof (grouping_outside _ (initSummary_quiet w)) as Hi.
  destruct (result (loadReport w (cwd w))) as [e|[report|]] eqn:Hload.
  - by rewrite (main_load_error _ _ Hload).
  - pose proof (grouping_forActions w (cwd w) (actions report)) as Hf.
    destruct (result (forActions w (cwd w) (actions report) [])) as [e|rs] eqn:Hloop.
    + rewrite (main_loop_error _ _ _ Hload Hloop). cbn [trace fst].
      by rewrite (grouping_app _ _ _ _ Hl), (grouping_app _ _ _ _ Hi).
    + rewrite (main_completed _ _ _ Hload Hloop). cbn [trace fst].
      rewrite (grouping_app _ _ _ _ Hl), (grouping_app _ _ _ _ Hi),
              (grouping_app _ _ _ _ Hf).
      apply grouping_outside.
      destruct (_ && _); [apply buildSummary_quiet | constructor].
  - rewrite (main_no_report _ Hload). cbn [trace fst].
    by rewrite (grouping_app _ _ _ _ Hl).
Qed.

(** Console groups never nest and none is left open, whether the run
    completes or fails: every line of [console.log] lies inside a group,
    every debug line, the warning and the line of [console.error] lie
    outside of every group, and at the end of the run, as at the end of
    the loop, no group is open. *)
Theorem groups_balanced (w : World) :
  grouping false (program w) = Some false
  ∧ ∀ root acts acc, grouping false (trace (forActions w root acts acc)) = Some false.
Proof.
  split.
  - pose proof (grouping_main w) as H.
    unfold program. destruct (main w) as [t [e|[]]]; [|done].
    by rewrite (grouping_app _ _ _ false).
  - intros root acts acc. rewrite forActions_acc. apply grouping_forActions.
Qed.

(** ** The platform *)

Lemma forActions_onPlatform w flag writable root acts acc :
  forActions (onPlatform w flag writable) root acts acc = forActions w root acts acc.
Proof.
  revert acc. induction acts as [|action rest IH]; intros acc; [done|].
  destruct (node action) as [tgt|other] eqn:E.
  - rewrite !(forActions_step _ _ _ _ _ _ E).
    change (readStatus (onPlatform w flag writable) root (parseTarget tgt))
      with (readStatus w root (parseTarget tgt)).
    destruct (readStatus w root (parseTarget tgt)) as [t [e|[out err]]]; [done|].
    cbn [bind fst snd]. rewrite !renderGroup_spec. cbn [bind fst snd].
    by rewrite IH.
  - rewrite !forActions_other by (unfold isRunTask; by rewrite E). apply IH.
Qed.

(** What [main] prints: the debug lines of the locator, then the warning or
    what the loop prints. *)
Lemma printed_main w :
  List.filter isPrinted (trace (main w))
  = List.filter isPrinted (trace (loadReport w (cwd w)))
    ++ match result (loadReport w (cwd w)) with
       | inr (Some report) =>
           List.filter isPrinted (trace (forActions w (cwd w) (actions report) []))
       | inr None => [CoreWarning noReportWarning]
       | inl _ => []
       end.
Proof.
  assert (Hi : List.filter isPrinted (if isGitHubActions w then trace initSummary else [])
               = []) by (by destruct (isGitHubActions w)).
  destruct (result (loadReport w (cwd w))) as [e|[report|]] eqn:Hload.
  - rewrite (main_load_error _ _ Hload). cbn [trace fst]. by rewrite app_nil_r.
  - destruct (result (forActions w (cwd w) (actions report) [])) as [e|rs] eqn:Hloop.
    + rewrite (main_loop_error _ _ _ Hload Hloop). cbn [trace fst].
      by rewrite !List.filter_app, Hi.
    + rewrite (main_completed _ _ _ Hload Hloop). cbn [trace fst].
      rewrite !List.filter_app, Hi.
      rewrite (filter_none isPrinted (if _ && _ then _ else _)); [by rewrite app_nil_r|].
      destruct (_ && _); [|constructor].
      eapply emitsOnly_Forall; [apply buildSummary_emits | by intros []].
  - rewrite (main_no_report _ Hload). cbn [trace fst]. by rewrite List.filter_app.
Qed.

(** What the whole run prints: what [main] prints, then the line of
    [console.error] when an error escaped. *)
Lemma printed_program w :
  List.filter isPrinted (program w)
  = List.filter isPrinted (trace (main w)) ++ errorLine (result (main w)).
Proof.
  unfold program. destruct (main w) as [t [e|[]]]; cbn [trace result fst snd errorLine].
  - by rewrite List.filter_app.
  - by rewrite app_nil_r.
Qed.

(** The outcome of [main], by how far the run got. *)
Lemma result_main w :
  result (main w)
  = match result (loadReport w (cwd w)) with
    | inl e => inl e
    | inr None => inr tt
    | inr (Some report) =>
        match result (forActions w (cwd w) (actions report) []) with
        | inl e => inl e
        | inr rs =>
            if isGitHubActions w && bool_decide (0 < length rs) && negb (summaryWritable w)
            then inl SummaryWriteError
            else inr tt
        end
    end.
Proof.
  destruct (result (loadReport w (cwd w))) as [e|[report|]] eqn:Hload.
  - by rewrite (main_load_error _ _ Hload).
  - destruct (result (forActions w (cwd w) (actions report) [])) as [e|rs] eqn:Hloop.
    + by rewrite (main_loop_error _ _ _ Hload Hloop).
    + rewrite (main_completed _ _ _ Hload Hloop). cbn [result snd].
      destruct (_ && _); [|done]. rewrite buildSummary_spec. cbn [result snd andb].
      by destruct (summaryWritable w).
  - by rewrite (main_no_report _ Hload).
Qed.

(** The platform (the environment flag, and whether the summary can be
    written) does not change the records the loop builds, nor anything
    [main] prints: debug lines, warning, groups and logged lines.  It
    changes the outcome of [main] only by a rejected summary write, so
    what the whole run prints differs between two platforms at most by
    the final line of [console.error] for that rejection; when neither
    run ends in it, both runs print the same. *)
Theorem console_independent_of_platform (w : World) (flag : option jsstring)
    (writable : bool) :
  List.filter isPrinted (trace (main (onPlatform w flag writable)))
  = List.filter isPrinted (trace (main w))
  ∧ (∀ root acts,
       forActions (onPlatform w flag writable) root acts [] = forActions w root acts [])
  ∧ List.filter isPrinted (program (onPlatform w flag writable))
    = List.filter isPrinted (trace (main w))
      ++ errorLine (result (main (onPlatform w flag writable)))
  ∧ List.filter isPrinted (program w)
    = List.filter isPrinted (trace (main w)) ++ errorLine (result (main w))
  ∧ (result (main (onPlatform w flag writable)) = result (main w)
     ∨ result (main (onPlatform w flag writable)) = inl SummaryWriteError
     ∨ result (main w) = inl SummaryWriteError)
  ∧ (result (main (onPlatform w flag writable)) ≠ inl SummaryWriteError →
     result (main w) ≠ inl SummaryWriteError →
     List.filter isPrinted (program (onPlatform w flag writable))
     = List.filter isPrinted (program w)).
Proof.
  assert (Hp : List.filter isPrinted (trace (main (onPlatform w flag writable)))
               = List.filter isPrinted (trace (main w))).
  { rewrite !printed_main.
    change (loadReport (onPlatform w flag writable) (cwd (onPlatform w flag writable)))
      with (loadReport w (cwd w)).
    destruct (result (loadReport w (cwd w))) as [e|[report|]]; [done| |done].
    change (cwd (onPlatform w flag writable)) with (cwd w).
    by rewrite forActions_onPlatform. }
  assert (Hr : result (main (onPlatform w flag writable)) = result (main w)
               ∨ result (main (onPlatform w flag writable)) = inl SummaryWriteError
               ∨ result (main w) = inl SummaryWriteError).
  { rewrite !result_main.
    change (loadReport (onPlatform w flag writable) (cwd (onPlatform w flag writable)))
      with (loadReport w (cwd w)).
    destruct (result (loadReport w (cwd w))) as [e|[report|]]; [by left| |by left].
    change (cwd (onPlatform w flag writable)) with (cwd w).
    rewrite forActions_onPlatform.
    destruct (result (forActions w (cwd w) (actions report) [])) as [e|rs]; [by left|].
    destruct (_ && _ && _), (_ && _ && _); auto. }
  split; [done|]. split; [intros; apply forActions_onPlatform|].
  split; [by rewrite printed_program, Hp|]. split; [apply printed_program|].
  split; [done|]. intros H1 H2. rewrite !printed_program, Hp.
  destruct Hr as [->|[Hr|Hr]]; done.
Qed.

Lemma console_independent_of_platform_witness :
  List.filter isPrinted (program (onPlatform sampleWorld None false))
  = List.filter isPrinted (program sampleWorld).
Proof.
  refine (proj2 (proj2 (proj2 (proj2 (proj2
    (console_independent_of_platform sampleWorld None false))))) _ _).
  - vm_compute. discriminate.
  - vm_compute. discriminate.
Defined.

(** The loop fails only with the read error of a log. *)
Lemma forActions_failure_is_read w root acts e :
  result (forActions w root acts []) = inl e → ∃ p, e = ReadError p.
Proof.
  induction acts as [|action rest IH]; [done|].
  destruct (node action) as [tgt|other] eqn:E.
  - rewrite (forActions_run _ _ _ _ _ E).
    destruct (result (readStatus w root (parseTarget tgt))) as [e'|[out err]] eqn:Hlogs.
    + cbn [result snd]. intros [= ->].
      destruct (readStatus_failure_cases w root (parseTarget tgt) e Hlogs); by eexists.
    + cbn [result snd]. destruct (result (forActions w root rest [])); [|done].
      intros [= ->]. by apply IH.
  - by rewrite forActions_other by (unfold isRunTask; by rewrite E).
Qed.

(** ** The summary off the platform *)

(** Unless the environment flag is exactly "true", a run does not touch the
    summary at all, and so cannot fail on writing it. *)
Theorem no_summary_off_platform (w : World) :
  env_GITHUB_ACTIONS w ≠ Some (lit "true") →
  Forall (λ ev, isSummaryEvent ev = false) (program w)
  ∧ result (main w) ≠ inl SummaryWriteError.
Proof.
  intros Henv.
  assert (Hflag : isGitHubActions w = false)
    by (unfold isGitHubActions; by rewrite bool_decide_false).
  assert (Hl : Forall (λ ev, isSummaryEvent ev = false) (trace (loadReport w (cwd w))))
    by (eapply emitsOnly_Forall; [apply loadReport_emits | by intros []]).
  assert (Hl' : ∀ e, result (loadReport w (cwd w)) = inl e → e ≠ SummaryWriteError).
  { intros e. rewrite loadReport_unfold, !fileExists_spec, !parseJson_cases.
    repeat (case_bool_decide || case_match); cbn; by intros [= <-]. }
  assert (Hf : ∀ report,
            Forall (λ ev, isSummaryEvent ev = false)
              (trace (forActions w (cwd w) (actions report) [])))
    by (intros; eapply emitsOnly_Forall; [apply forActions_emits | by intros []]).
  assert (Hmain : Forall (λ ev, isSummaryEvent ev = false) (trace (main w))
                  ∧ result (main w) ≠ inl SummaryWriteError).
  { destruct (result (loadReport w (cwd w))) as [e|[report|]] eqn:Hload.
    - rewrite (main_load_error _ _ Hload). split; [done|].
      intros [= ->]. by eapply Hl'.
    - destruct (result (forActions w (cwd w) (actions report) [])) as [e|rs] eqn:Hloop.
      + rewrite (main_loop_error _ _ _ Hload Hloop), Hflag. cbn [trace result fst snd].
        split; [apply Forall_app; split; [done | apply Hf]|]. intros [= ->].
        destruct (forActions_failure_is_read w (cwd w) (actions report) _ Hloop) as [p Hp].
        discriminate Hp.
      + rewrite (main_completed _ _ _ Hload Hloop), Hflag. cbn [trace result fst snd andb].
        split; [|done]. rewrite app_nil_r. apply Forall_app; split; [done | apply Hf].
    - rewrite (main_no_report _ Hload). split; [|done].
      apply Forall_app. split; [done | by repeat constructor]. }
  destruct Hmain as [Ht Hr]. split; [|done].
  unfold program. destruct (main w) as [t [e|[]]]; [|done].
  apply Forall_app. split; [done | by repeat constructor].
Qed.

Lemma no_summary_off_platform_witness :
  Forall (λ ev, isSummaryEvent ev = false) (program localWorld).
Proof. refine (proj1 (no_summary_off_platform localWorld _)). discriminate. Defined.

(** ** The summary table *)

Lemma orDash_nonempty s : orDash s ≠ [].
Proof. by destruct s. Qed.

(** The table is rectangular: the header and every row have four cells.
    Only the cells of the header are header cells.  No cell after the
    first is ever empty: the status cell starts with the emoji, and the
    command and outputs cells fall back to "-".  The outputs cell names
    the streams that have output, stdout first. *)
Theorem tableRow_shape (r : TaskResult) (rs : list TaskResult) :
  Forall (λ row, length row = 4) (tableHeader :: (tableRow <$> rs))
  ∧ Forall (λ c, header c = false) (tableRow r)
  ∧ Forall (λ c, header c = true) tableHeader
  ∧ Forall (λ c, data c ≠ []) (drop 1 (tableRow r))
  ∧ data <$> tableRow r !! 3%nat
    = Some (match hasStdout r, hasStderr r with
            | true, true => emoji_outbox ++ lit " stdout, " ++ emoji_inbox ++ lit " stderr"
            | true, false => emoji_outbox ++ lit " stdout"
            | false, true => emoji_inbox ++ lit " stderr"
            | false, false => lit "-"
            end).
Proof.
  split; [|split; [|split; [|split]]].
  - constructor; [done|]. apply Forall_fmap. by apply Forall_true.
  - by repeat constructor.
  - by repeat constructor.
  - unfold tableRow. cbn [drop]. repeat constructor; cbn [data].
    + pose proof (getStatusEmoji_nonempty (tr_status r)) as H.
      by destruct (getStatusEmoji (tr_status r)).
    + apply orDash_nonempty.
    + apply orDash_nonempty.
  - unfold tableRow. by destruct (hasStdout r), (hasStderr r).
Qed.

(** ** An empty command *)

(** A command is logged on the console whenever the record has one, the
    empty string included.  The summary treats the empty command as no
    command: its table cell is "-" and no bash block is added; for any
    other command the cell is the command and the block holds it. *)
Theorem empty_command_only_on_console (action : Action) (r : TaskResult)
    (out err : jsstring) :
  (∀ c, command r = Some c →
     ConsoleLog (blue (lit "$ " ++ c)) ∈ trace (renderGroup action r out err))
  ∧ (command r = Some [] ∨ command r = None →
     data <$> tableRow r !! 2%nat = Some (lit "-")
     ∧ Forall (λ ev, ∀ c, ev ≠ SummaryAddCodeBlock c (lit "bash")) (trace (addDetail r)))
  ∧ (∀ c, c ≠ [] → command r = Some c →
       data <$> tableRow r !! 2%nat = Some c
       ∧ SummaryAddCodeBlock (Some c) (lit "bash") ∈ trace (addDetail r)).
Proof.
  split; [|split].
  - intros c Hc. rewrite renderGroup_spec, Hc. cbn [trace fst].
    apply elem_of_cons. right. apply elem_of_app. left. apply list_elem_of_singleton.
    reflexivity.
  - intros Hc. split.
    + unfold tableRow. cbn. by destruct Hc as [->| ->].
    + rewrite addDetail_spec. cbn [trace fst].
      replace (truthy (command r)) with false by (by destruct Hc as [->| ->]).
      destruct (hasStdout r), (hasStderr r); repeat constructor; by intros c [=].
  - intros c Hne Hc. split.
    + unfold tableRow. cbn. rewrite Hc. by destruct c.
    + rewrite addDetail_spec, Hc. cbn [trace fst].
      replace (truthy (Some c)) with true by (by destruct c).
      apply elem_of_cons. right. apply elem_of_app. left.
      by apply list_elem_of_singleton.
Qed.

(** ** Colours *)

(** No colour wrapper loses text: each of them is injective. *)
Theorem colour_wrappers_injective (a b : jsstring) :
  (bgGreen a = bgGreen b ↔ a = b)
  ∧ (bgRed a = bgRed b ↔ a = b)
  ∧ (bgBlue a = bgBlue b ↔ a = b)
  ∧ (bgDarkGray a = bgDarkGray b ↔ a = b)
  ∧ (bold a = bold b ↔ a = b)
  ∧ (green a = green b ↔ a = b)
  ∧ (red a = red b ↔ a = b)
  ∧ (blue a = blue b ↔ a = b).
Proof.
  unfold bgGreen, bgRed, bgBlue, bgDarkGray, bold, green, red, blue.
  repeat split; try (by intros ->);
    intros H; apply app_inv_head in H; apply app_inv_head in H;
    by apply app_inv_tail in H.
Qed.

(** ** The two classifiers *)

(** The console badge and the summary emoji agree on what a failure is: a
    status has a red badge exactly when its emoji is the cross. *)
Theorem classifiers_agree_on_failure (s : jsstring) :
  (∃ label, statusBadge s = VString (bgRed label)) ↔ getStatusEmoji s = emoji_failed.
Proof.
  destruct (decide (s ∈ actionStatuses)) as [Hs|Hs].
  - revert s Hs. apply elem_of_actionStatuses;
      (split;
       [ intros [label H];
         first [ by vm_compute | exfalso; vm_compute in H; discriminate H ]
       | intros H;
         first [ eexists; reflexivity | exfalso; vm_compute in H; discriminate H ] ]).
  - rewrite getStatusEmoji_other, statusBadge_other by done. split.
    + intros [label H]. by case_bool_decide.
    + intros H. vm_compute in H. discriminate H.
Qed.

(** ** The error stream *)

(** An error is written to the error stream exactly when it is the error
    that escaped [main], and the process is ended by an exit call exactly
    when some error escaped. *)
Theorem error_logged_iff_failed (w : World) (e : Error) :
  (ConsoleError e ∈ program w ↔ result (main w) = inl e)
  ∧ ((∃ code, ProcessExit code ∈ program w) ↔ ∃ e', result (main w) = inl e').
Proof.
  pose proof (main_no_exit w) as H. rewrite Forall_forall in H.
  unfold program. destruct (main w) as [t [e'|[]]]; cbn [trace result fst snd] in *.
  - split; split.
    + intros [Ht|Hl]%elem_of_app.
      * destruct (H _ Ht) as [_ Hne]. by destruct (Hne e).
      * apply elem_of_cons in Hl as [[= ->]|Hl]; [done|].
        by apply list_elem_of_singleton in Hl.
    + intros [= ->]. apply elem_of_app. right. by left.
    + by eexists.
    + intros _. exists 0%Z. apply elem_of_app. right. right. by left.
  - split; split.
    + intros Ht. destruct (H _ Ht) as [_ Hne]. by destruct (Hne e).
    + done.
    + intros [code Ht]. by destruct (H _ Ht) as [? _].
    + by intros [? ?].
Qed.

(** When the platform rejects the summary of a flagged run with records,
    the rejection is the last thing [main] does: the error escapes, is
    logged, and the process exits with status 0; the console groups were
    all emitted before. *)
Theorem summary_rejected (w : World) (report : RunReport) (rs : list TaskResult) :
  result (loadReport w (cwd w)) = inr (Some report) →
  result (forActions w (cwd w) (actions report) []) = inr rs →
  rs ≠ [] →
  isGitHubActions w = true →
  summaryWritable w = false →
  result (main w) = inl SummaryWriteError
  ∧ last (trace (main w)) = Some SummaryWrite
  ∧ program w = trace (main w) ++ [ConsoleError SummaryWriteError; ProcessExit 0]
  ∧ groupNames (program w) = bold <$> (target <$> rs).
Proof.
  intros Hload Hloop Hne Hflag Hw. apply length_pos_iff in Hne.
  pose proof (main_completed _ _ _ Hload Hloop) as Hmain.
  rewrite Hflag, Hne in Hmain. cbn [andb] in Hmain.
  rewrite buildSummary_spec, Hw in Hmain. cbn [trace result fst snd] in Hmain.
  assert (Hg : groupNames (trace (main w)) = bold <$> (target <$> rs)).
  { rewrite Hmain. cbn [trace fst]. unfold groupNames. rewrite !omap_app.
    rewrite (omap_emitsOnly groupName isLocatorEvent)
      by (by intros [] || apply loadReport_emits).
    fold (groupNames (trace (forActions w (cwd w) (actions report) []))).
    rewrite (forActions_groupNames w (cwd w) (actions report) rs Hloop).
    cbn [app omap list_omap groupName trace initSummary fst].
    rewrite omap_app.
    rewrite (omap_none groupName (concat _)).
    - by rewrite app_nil_r.
    - replace (concat _) with (trace (addDetails rs)) by (by rewrite addDetails_spec).
      eapply emitsOnly_Forall; [apply addDetails_emits | by intros []]. }
  assert (Hprog : program w
                  = trace (main w) ++ [ConsoleError SummaryWriteError; ProcessExit 0]).
  { unfold program. by rewrite Hmain. }
  split; [by rewrite Hmain|]. split.
  - rewrite Hmain. cbn [trace fst]. by rewrite !last_app, !last_cons, last_snoc.
  - split; [done|]. rewrite Hprog. unfold groupNames in *. rewrite omap_app, Hg.
    cbn. by rewrite app_nil_r.
Qed.

Lemma summary_rejected_witness :
  result (main rejectingWorld) = inl SummaryWriteError
  ∧ exitCode (program rejectingWorld) = 0%Z.
Proof.
  destruct (summary_rejected rejectingWorld sampleReport sampleResults)
    as (H1 & _ & H3 & _).
  - vm_compute. reflexivity.
  - vm_compute. reflexivity.
  - discriminate.
  - vm_compute. reflexivity.
  - reflexivity.
  - split; [exact H1|]. vm_compute. reflexivity.
Defined.

(** ** No fallback *)

(** A first candidate that exists is final: when it cannot be read, or does
    not hold a report, the locator fails with the error of that path after
    one existence check and one parse, and does not fall back to the
    second candidate. *)
Theorem loadReport_no_fallback (w : World) (root : jsstring) (node : FsNode) :
  fs w !! reportPath w root (lit "ciReport.json") = Some node →
  holdsReport w (reportPath w root (lit "ciReport.json")) = false →
  (result (loadReport w root) = inl (ReadError (reportPath w root (lit "ciReport.json")))
   ∨ result (loadReport w root)
     = inl (ParseError (reportPath w root (lit "ciReport.json"))))
  ∧ trace (loadReport w root)
    = [ CoreDebug (lit "Finding run report at "
                     ++ path_join w (lit ".moon/cache") (lit "ciReport.json"));
        FsStat (reportPath w root (lit "ciReport.json"));
        CoreDebug (lit "Found!");
        FsParseJson (reportPath w root (lit "ciReport.json")) ].
Proof.
  intros Hfs Hbad. rewrite (loadReport_first _ _ _ Hfs). split; [|done].
  unfold holdsReport in Hbad. rewrite Hfs in Hbad.
  destruct node as [content|]; [|by left].
  apply bool_decide_eq_false in Hbad.
  destruct (decodeReport w content) as [report|]; [|by right].
  exfalso. apply Hbad. by eexists.
Qed.

Lemma loadReport_no_fallback_witness :
  result (loadReport brokenWorld (lit "/work"))
  = inl (ParseError (lit "/work/.moon/cache/ciReport.json")).
Proof.
  destruct (loadReport_no_fallback brokenWorld (lit "/work") (RegularFile (lit "{oops")))
    as [[H|H] _].
  - vm_compute. reflexivity.
  - vm_compute. reflexivity.
  - exfalso. vm_compute in H. discriminate H.
  - exact H.
Defined.
